(** * p2p-file-sharing: the file catalog and the transfer protocol

    A shallow embedding of [fileSharing.js] (class [FileSharing]) and of the
    parts of [index.js] that drive it (the pub/sub [message] listener, the
    [peer:connect] listener and [window.removeSharedFile]).

    The repository holds two definitions of class [FileSharing].  They share
    [shareFile], [announceFile], [handleFileAnnouncement], [getSharedFiles]
    and [getAvailableFiles] word for word and differ in the protocol handler
    registered by [setupProtocol] and in [requestFile]:
    - module [V1] embeds the first definition (fileSharing.js, lines 11-146);
    - module [V2] embeds the second one (fileSharing.js, lines 157-375).

    Conventions of the embedding:
    - a JavaScript value that crosses the wire is a [value];
    - a JavaScript string is a [string] holding the UTF-8 bytes of its text;
    - a [Uint8Array] is a [list byte];
    - a number is the integer it holds ([Z]): the numbers of the program
      are sizes and timestamps, integers below 2^53, which a double holds
      exactly;
    - a promise is modelled by its settlement, an [outcome]: [Returned] for
      a fulfilled promise or a normal return, [Thrown] for a rejection or a
      raised exception; each public operation runs to completion before the
      next one starts;
    - [console.log], [console.warn] and [console.error] calls are dropped. *)

From Stdlib Require Import String Ascii List ZArith NArith Lia Bool.
From Stdlib Require Import Strings.Byte Decimal DecimalString DecimalZ DecimalPos DecimalFacts.
Import ListNotations.
Local Open Scope list_scope.
Local Open Scope string_scope.

(* ================================================================== *)
(** ** Exceptions and outcomes *)

(** An [Error] object; only its [message] is ever read by the program. *)
Inductive exn : Type :=
| Error (message : string).

Definition message (e : exn) : string :=
  match e with Error m => m end.

Inductive outcome (A : Type) : Type :=
| Returned (a : A)
| Thrown (e : exn).

Arguments Returned {A} a.
Arguments Thrown {A} e.

Definition obind {A B : Type} (m : outcome A) (k : A -> outcome B) : outcome B :=
  match m with
  | Returned a => k a
  | Thrown e => Thrown e
  end.

(* ================================================================== *)
(** ** JavaScript values *)

Module Js.

(** The values that [JSON.parse] and object literals produce in this
    program, plus [undefined] (the result of reading a missing property). *)
#[warnings="-register-all"]
Inductive value : Type :=
| VUndefined
| VNull
| VBool (b : bool)
| VNum (n : Z)
| VStr (s : string)
| VArr (items : list value)
| VObj (fields : list (string * value)).

(** Own property lookup in an object literal: a later binding of the same
    key shadows an earlier one. *)
Fixpoint lookup_last (k : string) (l : list (string * value)) : option value :=
  match l with
  | [] => None
  | (k', x) :: r =>
      match lookup_last k r with
      | Some y => Some y
      | None => if String.eqb k' k then Some x else None
      end
  end.

(** [v.k] and the destructuring [const { k } = v], for the property names
    this program reads ([type], [fileId], [error], [peerId], [fileName],
    [fileSize], [timestamp]): none of them exists on the prototypes of
    strings, numbers, booleans, arrays or plain objects.  Reading a property
    of [null] or [undefined] raises a [TypeError]. *)
Definition get_prop (v : value) (k : string) : outcome value :=
  match v with
  | VUndefined => Thrown (Error ("Cannot read properties of undefined (reading '" ++ k ++ "')"))
  | VNull => Thrown (Error ("Cannot read properties of null (reading '" ++ k ++ "')"))
  | VObj fields =>
      match lookup_last k fields with
      | Some x => Returned x
      | None => Returned VUndefined
      end
  | _ => Returned VUndefined
  end.

(** ToBoolean. *)
Definition truthy (v : value) : bool :=
  match v with
  | VUndefined | VNull => false
  | VBool b => b
  | VNum n => negb (Z.eqb n 0)
  | VStr s => negb (String.eqb s "")
  | VArr _ | VObj _ => true
  end.

(** [a === s] for a string [s]. *)
Definition strict_eq_string (a : value) (s : string) : bool :=
  match a with
  | VStr t => String.eqb t s
  | _ => false
  end.

(** SameValueZero, the key equality of [Map].  On primitive values it is
    structural.  Arrays and objects are compared by reference: every array
    or object that reaches a [Map] key in this program is the fresh result
    of a [JSON.parse], so it is never identical to a key already stored. *)
Definition same_value_zero (a b : value) : bool :=
  match a, b with
  | VUndefined, VUndefined => true
  | VNull, VNull => true
  | VBool x, VBool y => Bool.eqb x y
  | VNum x, VNum y => Z.eqb x y
  | VStr x, VStr y => String.eqb x y
  | _, _ => false
  end.

(** Decimal text of an integer, every digit printed. *)
Definition string_of_Z (n : Z) : string :=
  NilZero.string_of_int (Z.to_int n).

(** The integer-valued double nearest to the integer [m], for [0 <= m]: 53
    significant bits, a tie going to the even significand. *)
Definition round53 (m : Z) : Z :=
  let e := (Z.log2 m - 52)%Z in
  if (e <=? 0)%Z then m
  else
    let q := (m / 2 ^ e)%Z in
    let r := (m mod 2 ^ e)%Z in
    let half := (2 ^ (e - 1))%Z in
    if (r <? half)%Z then (q * 2 ^ e)%Z
    else if (half <? r)%Z then ((q + 1) * 2 ^ e)%Z
    else if Z.even q then (q * 2 ^ e)%Z
    else ((q + 1) * 2 ^ e)%Z.

(** The digits [s], their count [k] and the exponent [n] that
    [Number::toString] prints for the double [x], an integer of [d] digits:
    the smallest [k] for which some [s] of [k] digits has [s * 10^(n-k)]
    round to [x], and for that [k] the [s] closest to [x]. *)
Fixpoint shortest (fuel : nat) (k d x : Z) : Z * Z * Z :=
  match fuel with
  | O => (x, d, d)
  | S f =>
      let p := (10 ^ (d - k))%Z in
      let lo := (x / p)%Z in
      let hi := (lo + 1)%Z in
      let low := (lo, k, d) in
      let high := if (hi =? 10 ^ k)%Z then (10 ^ (k - 1), k, d + 1)%Z else (hi, k, d) in
      match (round53 (lo * p) =? x)%Z, (round53 (hi * p) =? x)%Z with
      | true, true =>
          if (x - lo * p <? hi * p - x)%Z then low
          else if (hi * p - x <? x - lo * p)%Z then high
          else if Z.even lo then low else high
      | true, false => low
      | false, true => high
      | false, false => shortest f (k + 1)%Z d x
      end
  end.

Fixpoint zeros (n : nat) : string :=
  match n with
  | O => ""
  | S m => String "0" (zeros m)
  end.

(** [Number::toString] in radix 10, for the integer that a double holds.
    Below 2^53 every digit is printed.  From there on the shortest digits
    that identify the double are printed, padded with zeros while the number
    has at most 21 digits and in exponent notation beyond. *)
Definition Number_toString (x : Z) : string :=
  let a := Z.abs x in
  if (a <? 2 ^ 53)%Z then string_of_Z x
  else
    let d := Z.of_nat (String.length (string_of_Z a)) in
    let '(s, k, n) := shortest (Z.to_nat d) 1 d a in
    let digits := string_of_Z s in
    (if (x <? 0)%Z then "-" else "") ++
    (if (n <=? 21)%Z then digits ++ zeros (Z.to_nat (n - k))
     else
       match digits with
       | String c "" => String c "" ++ "e+" ++ string_of_Z (n - 1)
       | String c rest => String c "" ++ "." ++ rest ++ "e+" ++ string_of_Z (n - 1)
       | "" => ""
       end).

(** ToString, used by the template literal in [requestFile].  An array
    prints its elements joined by commas, [null] and [undefined] as the empty
    text.  An object is printed by the first callable of its [toString] and
    [valueOf]: an own [toString] property, which is never a function in the
    values of this program, hides [Object.prototype.toString], the inherited
    [valueOf] returns the object itself, and the conversion raises a
    [TypeError]. *)
Fixpoint to_string (v : value) : outcome string :=
  match v with
  | VUndefined => Returned "undefined"
  | VNull => Returned "null"
  | VBool true => Returned "true"
  | VBool false => Returned "false"
  | VNum n => Returned (Number_toString n)
  | VStr s => Returned s
  | VArr items =>
      (fix join (l : list value) : outcome string :=
         match l with
         | [] => Returned ""
         | x :: r =>
             obind (match x with
                    | VUndefined | VNull => Returned ""
                    | _ => to_string x
                    end) (fun sx =>
             match r with
             | [] => Returned sx
             | _ :: _ => obind (join r) (fun sr => Returned (sx ++ "," ++ sr))
             end)
         end) items
  | VObj fields =>
      match lookup_last "toString" fields with
      | Some _ => Thrown (Error "Cannot convert object to primitive value")
      | None => Returned "[object Object]"
      end
  end.

(** *** [Map] objects

    A [Map] keeps its entries in insertion order; [set] on a key already
    present replaces the value in place. *)
Definition Map (V : Type) : Type := list (value * V).

Definition map_new {V : Type} : Map V := [].

Fixpoint map_set {V : Type} (k : value) (v : V) (m : Map V) : Map V :=
  match m with
  | [] => [(k, v)]
  | (k', v') :: r =>
      if same_value_zero k' k then (k', v) :: r
      else (k', v') :: map_set k v r
  end.

Fixpoint map_get {V : Type} (k : value) (m : Map V) : option V :=
  match m with
  | [] => None
  | (k', v') :: r =>
      if same_value_zero k' k then Some v' else map_get k r
  end.

Definition map_has {V : Type} (k : value) (m : Map V) : bool :=
  match map_get k m with
  | Some _ => true
  | None => false
  end.

Fixpoint map_delete {V : Type} (k : value) (m : Map V) : Map V :=
  match m with
  | [] => []
  | (k', v') :: r =>
      if same_value_zero k' k then r
      else (k', v') :: map_delete k r
  end.

(** [Array.from(m.values())]. *)
Definition map_values {V : Type} (m : Map V) : list V :=
  List.map snd m.

Definition map_keys {V : Type} (m : Map V) : list value :=
  List.map fst m.

End Js.

(* ================================================================== *)
(** ** The wire codecs

    [JSON.stringify], [JSON.parse], [TextEncoder], [TextDecoder],
    [uint8ArrayFromString], [uint8ArrayToString] and the [it-length-prefixed]
    framing are imported by the program; their code is not part of it.  The
    spec fixes what they are for: the payload of an announcement is "the
    UTF-8 JSON-equivalent serialization" of the announcement (section 6), a
    request or a response is that serialization behind a length prefix
    (sections 4.1 and 6).  They are modelled here, as executable functions,
    so that the encode and decode paths of the program can be run. *)

Module Json.
Import Js.

Definition dquote : ascii := "034"%char.
Definition backslash : ascii := "\"%char.

Definition hex_digit (n : N) : ascii :=
  match n with
  | 0 => "0" | 1 => "1" | 2 => "2" | 3 => "3" | 4 => "4" | 5 => "5"
  | 6 => "6" | 7 => "7" | 8 => "8" | 9 => "9" | 10 => "a" | 11 => "b"
  | 12 => "c" | 13 => "d" | 14 => "e" | _ => "f"
  end%N%char.

(** QuoteJSONString, one character at a time. *)
Definition escape_char (c : ascii) : string :=
  if (c =? dquote)%char then String backslash (String dquote "")
  else if (c =? backslash)%char then String backslash (String backslash "")
  else if (c =? "008")%char then String backslash "b"
  else if (c =? "009")%char then String backslash "t"
  else if (c =? "010")%char then String backslash "n"
  else if (c =? "012")%char then String backslash "f"
  else if (c =? "013")%char then String backslash "r"
  else if (N_of_ascii c <? 32)%N then
    String backslash
      (String "u" (String "0" (String "0"
         (String (hex_digit (N_of_ascii c / 16))
            (String (hex_digit (N_of_ascii c mod 16)) "")))))
  else String c "".

Fixpoint escape (s : string) : string :=
  match s with
  | "" => ""
  | String c r => escape_char c ++ escape r
  end.

Definition quote (s : string) : string :=
  String dquote (escape s ++ String dquote "").

Definition is_undefined (v : value) : bool :=
  match v with VUndefined => true | _ => false end.

Definition sep (first : bool) : string :=
  if first then "" else ",".

(** Modelled from the spec: the JSON serialization of section 6, whose code
    is the built-in [JSON.stringify]; the text is the one ECMAScript
    prescribes, without indentation.  [undefined] prints as [null] inside an
    array and drops its property inside an object.  A number prints every
    digit, which is the text of every integer below 2^53 in magnitude, the
    range of the sizes and timestamps that the program serialises. *)
Fixpoint stringify (v : value) : string :=
  match v with
  | VUndefined => "null"
  | VNull => "null"
  | VBool true => "true"
  | VBool false => "false"
  | VNum n => string_of_Z n
  | VStr s => quote s
  | VArr items =>
      "[" ++
      (fix elements (l : list value) (first : bool) : string :=
         match l with
         | [] => ""
         | x :: r => sep first ++ stringify x ++ elements r false
         end) items true ++ "]"
  | VObj fields =>
      "{" ++
      (fix members (l : list (string * value)) (first : bool) : string :=
         match l with
         | [] => ""
         | (k, x) :: r =>
             if is_undefined x then members r first
             else sep first ++ quote k ++ ":" ++ stringify x ++ members r false
         end) fields true ++ "}"
  end.

(** [JSON.stringify] of an object or array. *)
Definition JSON_stringify (v : value) : string := stringify v.

(** *** Parsing *)

Definition is_ws (c : ascii) : bool :=
  (c =? " ")%char || (c =? "009")%char || (c =? "010")%char || (c =? "013")%char.

Fixpoint skip_ws (s : string) : string :=
  match s with
  | "" => ""
  | String c r => if is_ws c then skip_ws r else s
  end.

Definition hex_value (c : ascii) : option N :=
  let n := N_of_ascii c in
  if (48 <=? n)%N && (n <=? 57)%N then Some (n - 48)%N
  else if (97 <=? n)%N && (n <=? 102)%N then Some (n - 87)%N
  else if (65 <=? n)%N && (n <=? 70)%N then Some (n - 55)%N
  else None.

(** UTF-8 bytes of the code unit written by a [\uXXXX] escape (surrogate
    pairs written as two escapes are not recombined). *)
Definition utf8_of_code_unit (n : N) : string :=
  if (n <? 128)%N then String (ascii_of_N n) ""
  else if (n <? 2048)%N then
    String (ascii_of_N (192 + n / 64)) (String (ascii_of_N (128 + n mod 64)) "")
  else
    String (ascii_of_N (224 + n / 4096))
      (String (ascii_of_N (128 + (n / 64) mod 64))
         (String (ascii_of_N (128 + n mod 64)) "")).

Definition prepend (p : string) (res : option (string * string)) : option (string * string) :=
  match res with
  | Some (s, rest) => Some (p ++ s, rest)
  | None => None
  end.

(** The characters of a string literal, after its opening quote. *)
Fixpoint parse_chars (s : string) : option (string * string) :=
  match s with
  | "" => None
  | String c r =>
      if (c =? dquote)%char then Some ("", r)
      else if (c =? backslash)%char then
        match r with
        | "" => None
        | String e r1 =>
            if (e =? dquote)%char then prepend (String dquote "") (parse_chars r1)
            else if (e =? backslash)%char then prepend (String backslash "") (parse_chars r1)
            else if (e =? "/")%char then prepend "/" (parse_chars r1)
            else if (e =? "b")%char then prepend (String "008" "") (parse_chars r1)
            else if (e =? "t")%char then prepend (String "009" "") (parse_chars r1)
            else if (e =? "n")%char then prepend (String "010" "") (parse_chars r1)
            else if (e =? "f")%char then prepend (String "012" "") (parse_chars r1)
            else if (e =? "r")%char then prepend (String "013" "") (parse_chars r1)
            else if (e =? "u")%char then
              match r1 with
              | String h1 (String h2 (String h3 (String h4 r2))) =>
                  match hex_value h1, hex_value h2, hex_value h3, hex_value h4 with
                  | Some a, Some b, Some c', Some d =>
                      prepend (utf8_of_code_unit (((a * 16 + b) * 16 + c') * 16 + d)%N)
                        (parse_chars r2)
                  | _, _, _, _ => None
                  end
              | _ => None
              end
            else None
        end
      else if (N_of_ascii c <? 32)%N then None
      else prepend (String c "") (parse_chars r)
  end.

Definition digit_of_char (c : ascii) : option (uint -> uint) :=
  if (c =? "0")%char then Some D0
  else if (c =? "1")%char then Some D1
  else if (c =? "2")%char then Some D2
  else if (c =? "3")%char then Some D3
  else if (c =? "4")%char then Some D4
  else if (c =? "5")%char then Some D5
  else if (c =? "6")%char then Some D6
  else if (c =? "7")%char then Some D7
  else if (c =? "8")%char then Some D8
  else if (c =? "9")%char then Some D9
  else None.

Fixpoint read_digits (s : string) : uint * string :=
  match s with
  | "" => (Nil, "")
  | String c r =>
      match digit_of_char c with
      | Some D => let (d, rest) := read_digits r in (D d, rest)
      | None => (Nil, s)
      end
  end.

(** The JSON integer grammar: [0], or a non-zero digit followed by digits. *)
Definition canonical (d : uint) : bool :=
  match d with
  | Nil => false
  | D0 Nil => true
  | D0 _ => false
  | _ => true
  end.

Definition starts_fraction (s : string) : bool :=
  match s with
  | String c _ => (c =? ".")%char || (c =? "e")%char || (c =? "E")%char
  | "" => false
  end.

(** Number literals: the integer literals, which is how the program's own
    messages write their sizes and timestamps.  A literal with a fraction or
    an exponent has no value in the integer model of numbers and is not read
    here; the statements below run the parser on the texts of [stringify]
    only, or take its result as given. *)
Definition parse_number (s : string) : option (value * string) :=
  let (negative, digits) :=
    match s with
    | String c r => if (c =? "-")%char then (true, r) else (false, s)
    | "" => (false, s)
    end in
  let (d, rest) := read_digits digits in
  if canonical d && negb (starts_fraction rest) then
    Some (VNum (Z.of_int (if negative then Neg d else Pos d)), rest)
  else None.

Fixpoint strip_prefix (p s : string) : option string :=
  match p with
  | "" => Some s
  | String a p' =>
      match s with
      | String b s' => if (a =? b)%char then strip_prefix p' s' else None
      | "" => None
      end
  end.

Definition parse_literal (p : string) (v : value) (s : string) : option (value * string) :=
  match strip_prefix p s with
  | Some rest => Some (v, rest)
  | None => None
  end.

Definition with_rest {A B : Type} (f : A -> B) (res : option (A * string)) : option (B * string) :=
  match res with
  | Some (a, rest) => Some (f a, rest)
  | None => None
  end.

(** Recursive descent; [fuel] bounds the nesting of calls, and one more than
    the length of the text is always enough. *)
Fixpoint parse_value (fuel : nat) (s : string) {struct fuel} : option (value * string) :=
  match fuel with
  | O => None
  | S f =>
      match skip_ws s with
      | "" => None
      | String c r =>
          if (c =? "{")%char then
            match skip_ws r with
            | "" => None
            | String c' r' =>
                if (c' =? "}")%char then Some (VObj [], r')
                else with_rest VObj (parse_members f r)
            end
          else if (c =? "[")%char then
            match skip_ws r with
            | "" => None
            | String c' r' =>
                if (c' =? "]")%char then Some (VArr [], r')
                else with_rest VArr (parse_elements f r)
            end
          else if (c =? dquote)%char then with_rest VStr (parse_chars r)
          else if (c =? "n")%char then parse_literal "ull" VNull r
          else if (c =? "t")%char then parse_literal "rue" (VBool true) r
          else if (c =? "f")%char then parse_literal "alse" (VBool false) r
          else parse_number (String c r)
      end
  end

with parse_elements (fuel : nat) (s : string) {struct fuel} : option (list value * string) :=
  match fuel with
  | O => None
  | S f =>
      match parse_value f s with
      | None => None
      | Some (v, r) =>
          match skip_ws r with
          | "" => None
          | String c r' =>
              if (c =? ",")%char then with_rest (cons v) (parse_elements f r')
              else if (c =? "]")%char then Some ([v], r')
              else None
          end
      end
  end

with parse_members (fuel : nat) (s : string) {struct fuel} : option (list (string * value) * string) :=
  match fuel with
  | O => None
  | S f =>
      match skip_ws s with
      | "" => None
      | String q r =>
          if (q =? dquote)%char then
            match parse_chars r with
            | None => None
            | Some (k, r1) =>
                match skip_ws r1 with
                | "" => None
                | String c1 r2 =>
                    if (c1 =? ":")%char then
                      match parse_value f r2 with
                      | None => None
                      | Some (v, r3) =>
                          match skip_ws r3 with
                          | "" => None
                          | String c3 r4 =>
                              if (c3 =? ",")%char then
                                with_rest (cons (k, v)) (parse_members f r4)
                              else if (c3 =? "}")%char then Some ([(k, v)], r4)
                              else None
                          end
                      end
                    else None
                end
            end
          else None
      end
  end.

(** Modelled from the spec: the JSON deserialization of section 6, whose
    code is the built-in [JSON.parse]: one value, optionally surrounded by
    white space; a malformed text raises. *)
Definition JSON_parse (s : string) : outcome value :=
  match parse_value (S (String.length s)) s with
  | Some (v, rest) =>
      match skip_ws rest with
      | "" => Returned v
      | String _ _ => Thrown (Error "Unexpected non-whitespace character after JSON")
      end
  | None => Thrown (Error "Unexpected token in JSON")
  end.

End Json.

Module Utf8.

(** Modelled from the spec: the UTF-8 encoding of section 6, whose code is
    [uint8ArrayFromString(s)] on the stream path and
    [new TextEncoder().encode(s)] on the pub/sub path: the UTF-8 bytes of the
    text, which is how a [string] is held here. *)
Definition uint8ArrayFromString (s : string) : list byte :=
  list_byte_of_string s.

Definition TextEncoder_encode (s : string) : list byte :=
  list_byte_of_string s.

(** Modelled from the spec: the UTF-8 decoding of section 6, whose code is
    [new TextDecoder().decode(bytes)] (the replacement of malformed sequences
    by U+FFFD and the removal of a leading byte-order mark are not
    modelled). *)
Definition TextDecoder_decode (bs : list byte) : string :=
  string_of_list_byte bs.

(** Modelled from the spec: the same decoding behind
    [uint8ArrayToString(arr[0])], where [arr[0]] is [undefined] when no frame
    arrived: the conversion of [undefined] does not yield a text that parses,
    so the step is modelled as raising. *)
Definition uint8ArrayToString (frame : option (list byte)) : outcome string :=
  match frame with
  | Some bs => Returned (string_of_list_byte bs)
  | None => Thrown (Error "Cannot read properties of undefined")
  end.

End Utf8.

Module Lp.

Definition byte_of_N (n : N) : byte :=
  byte_of_ascii (ascii_of_N n).

(** Unsigned varint: seven bits per byte, least significant group first,
    the high bit set on every byte but the last. *)
Fixpoint varint_fuel (fuel : nat) (n : N) : list byte :=
  match fuel with
  | O => []
  | S f =>
      if (n <? 128)%N then [byte_of_N n]
      else byte_of_N (n mod 128 + 128) :: varint_fuel f (n / 128)
  end.

Definition varint_encode (n : N) : list byte :=
  varint_fuel (S (N.to_nat (N.log2 n))) n.

(** Modelled from the spec: the configured maximum of section 4.1.  The
    program calls [lp.decode()] without options, so the defaults of the
    package are in force: a length prefix of at most 8 bytes and a message of
    at most 4 MiB. *)
Definition MAX_LENGTH_LENGTH : nat := 8.
Definition MAX_DATA_LENGTH : N := 4194304.

(** The length prefix, read from at most [fuel] bytes: [None] when the
    bytes end, or [fuel] bytes are read, before the last byte of the
    varint. *)
Fixpoint varint_decode (fuel : nat) (bs : list byte) : option (N * list byte) :=
  match fuel, bs with
  | S f, b :: r =>
      let x := Byte.to_N b in
      if (x <? 128)%N then Some (x, r)
      else
        match varint_decode f r with
        | Some (hi, r') => Some (x - 128 + 128 * hi, r')%N
        | None => None
        end
  | _, _ => None
  end.

(** Modelled from the spec: the Framing Codec of section 4.1, whose code is
    the imported [it-length-prefixed] package.  [encode] prefixes each chunk
    with its length. *)
Definition encode (chunks : list (list byte)) : list byte :=
  List.concat (List.map (fun c => varint_encode (N.of_nat (List.length c)) ++ c)%list chunks).

(** Modelled from the spec: the loop of the Framing Codec's [decode], one
    frame per round, until the stream is exhausted.  It fails when the
    declared length exceeds the maximum, when the length prefix does not end
    within its own maximum, and when the stream ends before the declared
    length is read. *)
Fixpoint decode_frames (fuel : nat) (bs : list byte) : outcome (list (list byte)) :=
  match bs with
  | [] => Returned []
  | _ :: _ =>
      match fuel with
      | O => Thrown (Error "unexpected end of input")
      | S f =>
          match varint_decode MAX_LENGTH_LENGTH bs with
          | None =>
              if (MAX_LENGTH_LENGTH <? List.length bs)%nat then
                Thrown (Error "message length too long")
              else Thrown (Error "unexpected end of input")
          | Some (n, r) =>
              if (MAX_DATA_LENGTH <? n)%N then
                Thrown (Error "message data too long")
              else if (N.of_nat (List.length r) <? n)%N then
                Thrown (Error "unexpected end of input")
              else
                obind (decode_frames f (skipn (N.to_nat n) r))
                  (fun rest => Returned (firstn (N.to_nat n) r :: rest))
          end
      end
  end.

(** Modelled from the spec: the Framing Codec of section 4.1.  [decode]
    recovers the messages of a byte stream or fails; no partial message is
    delivered.  Every frame takes at least one byte, so the length of the
    input is enough fuel. *)
Definition decode (bs : list byte) : outcome (list (list byte)) :=
  decode_frames (List.length bs) bs.

End Lp.

(* ================================================================== *)
(** ** Streams and the effects of a protocol run *)

Module Net.

(** One libp2p stream, as the local side sees it. *)
Record Stream : Type := {
  (** every byte that [stream.source] yields until the remote side closes
      its write side; [Thrown] when reading aborts *)
  source : outcome (list byte);
  (** what the [n]-th call of [stream.sink] does with the bytes piped into
      it: [None] when it accepts them, [Some e] when it raises [e] *)
  sink : nat -> option exn
}.

(** One call of [stream.sink]. *)
Record write : Type := {
  bytes : list byte;
  accepted : bool
}.

(** A run threads the calls of [stream.sink] made so far and settles with an
    outcome. *)
Definition io (A : Type) : Type := list write -> outcome A * list write.

Definition ret {A : Type} (a : A) : io A :=
  fun w => (Returned a, w).

Definition throw {A : Type} (e : exn) : io A :=
  fun w => (Thrown e, w).

Definition lift {A : Type} (o : outcome A) : io A :=
  fun w => (o, w).

Definition bind {A B : Type} (m : io A) (k : A -> io B) : io B :=
  fun w =>
    match m w with
    | (Returned a, w') => k a w'
    | (Thrown e, w') => (Thrown e, w')
    end.

(** [try { m } catch (err) { h err }]. *)
Definition try_catch {A : Type} (m : io A) (h : exn -> io A) : io A :=
  fun w =>
    match m w with
    | (Returned a, w') => (Returned a, w')
    | (Thrown e, w') => h e w'
    end.

(** [await pipe([chunk], lp.encode(), stream.sink)]. *)
Definition pipe_to_sink (s : Stream) (chunk : list byte) : io unit :=
  fun w =>
    let framed := Lp.encode [chunk] in
    match sink s (List.length w) with
    | None => (Returned tt, (w ++ [{| bytes := framed; accepted := true |}])%list)
    | Some e => (Thrown e, (w ++ [{| bytes := framed; accepted := false |}])%list)
    end.

Definition run {A : Type} (m : io A) : outcome A * list write := m [].

(** The bytes the remote side reads: those of the accepted writes. *)
Definition delivered (ws : list write) : list byte :=
  List.concat (List.map bytes (List.filter accepted ws)).

(** [pipe(stream.source, lp.decode(), async (source) => { const arr = await
    all(source); return uint8ArrayToString(arr[0]) })]. *)
Definition receive_text (s : Stream) : outcome string :=
  obind (source s) (fun bs =>
  obind (Lp.decode bs) (fun arr =>
  Utf8.uint8ArrayToString (List.hd_error arr))).

(** The same pipe followed by [JSON.parse], as [requestFile] has it. *)
Definition receive_json (s : Stream) : outcome Js.value :=
  obind (receive_text s) Json.JSON_parse.

(** The request as the protocol handler reads it: the pipe, [JSON.parse] and
    the destructuring [const { type, fileId } = JSON.parse(data)]. *)
Definition decode_request (s : Stream) : outcome (Js.value * Js.value) :=
  obind (receive_text s) (fun data =>
  obind (Json.JSON_parse data) (fun request =>
  obind (Js.get_prop request "type") (fun type =>
  obind (Js.get_prop request "fileId") (fun fileId =>
  Returned (type, fileId))))).

(** What the program uses of the libp2p node. *)
Record Libp2p : Type := {
  (** [peerIdFromString] of [@libp2p/peer-id] *)
  peerIdFromString : string -> outcome string;
  (** [libp2p.dialProtocol(peer, protocol)]: the stream, [None] for a
      result that holds no stream *)
  dialProtocol : string -> string -> outcome (option Stream)
}.

End Net.

Declare Scope io_scope.
Delimit Scope io_scope with io.
Notation "x <- m ;; k" := (Net.bind m (fun x => k))
  (at level 61, m at next level, right associativity) : io_scope.
Notation "m ;;; k" := (Net.bind m (fun _ => k))
  (at level 61, right associativity) : io_scope.

(* ================================================================== *)
(** ** The part of class [FileSharing] that both definitions share *)

Module Core.
Import Js.

Definition FILE_SHARING_PROTOCOL : string := "/file-sharing/1.0.0".
Definition FILE_ANNOUNCE_TOPIC : string := "file-announce-v1".

(** The [fileData] record that [shareFile] stores. *)
Record SharedFile : Type := {
  sf_id : string;
  sf_name : string;
  sf_type : string;
  sf_size : Z;
  sf_data : string;
  sf_timestamp : Z
}.

(** The [fileInfo] record that [handleFileAnnouncement] stores: the five
    properties read from the announcement, whatever they are. *)
Record FileInfo : Type := {
  fi_peerId : value;
  fi_fileId : value;
  fi_fileName : value;
  fi_fileSize : value;
  fi_timestamp : value
}.

(** An instance of the class; [self_peerId] is
    [this.libp2p.peerId.toString()]. *)
Record FileSharing : Type := {
  self_peerId : string;
  sharedFiles : Map SharedFile;
  availableFiles : Map FileInfo
}.

(** [new FileSharing(libp2p)]. *)
Definition new (self : string) : FileSharing :=
  {| self_peerId := self; sharedFiles := map_new; availableFiles := map_new |}.

(** The object that [JSON.stringify(fileData)] serialises. *)
Definition fileData_value (f : SharedFile) : value :=
  VObj [("id", VStr (sf_id f)); ("name", VStr (sf_name f));
        ("type", VStr (sf_type f)); ("size", VNum (sf_size f));
        ("data", VStr (sf_data f)); ("timestamp", VNum (sf_timestamp f))].

(** The [announcement] object literal of [announceFile]. *)
Definition announcement_value (self : string) (fileData : SharedFile) (now : Z) : value :=
  VObj [("peerId", VStr self); ("fileId", VStr (sf_id fileData));
        ("fileName", VStr (sf_name fileData));
        ("fileSize", VNum (sf_size fileData)); ("timestamp", VNum now)].

(** [const { peerId, fileId, fileName, fileSize, timestamp } = announcement]. *)
Definition destructure_announcement (announcement : value) : outcome FileInfo :=
  obind (get_prop announcement "peerId") (fun peerId =>
  obind (get_prop announcement "fileId") (fun fileId =>
  obind (get_prop announcement "fileName") (fun fileName =>
  obind (get_prop announcement "fileSize") (fun fileSize =>
  obind (get_prop announcement "timestamp") (fun timestamp =>
  Returned {| fi_peerId := peerId; fi_fileId := fileId; fi_fileName := fileName;
              fi_fileSize := fileSize; fi_timestamp := timestamp |}))))).

(** [handleFileAnnouncement(announcement)]: [None] is the bare [return] of
    the self-announcement case. *)
Definition handleFileAnnouncement (st : FileSharing) (announcement : value)
  : outcome (FileSharing * option FileInfo) :=
  obind (destructure_announcement announcement) (fun fileInfo =>
  if strict_eq_string (fi_peerId fileInfo) (self_peerId st) then Returned (st, None)
  else
    Returned ({| self_peerId := self_peerId st;
                 sharedFiles := sharedFiles st;
                 availableFiles := map_set (fi_fileId fileInfo) fileInfo (availableFiles st) |},
              Some fileInfo)).

(** The pub/sub service: what [publish(topic, data)] does. *)
Record PubSub : Type := {
  publish : string -> list byte -> option exn
}.

(** [new TextEncoder().encode(JSON.stringify(announcement))]. *)
Definition announcement_payload (announcement : value) : list byte :=
  Utf8.TextEncoder_encode (Json.JSON_stringify announcement).

(** [announceFile(fileData)]; [now] is the value of [Date.now()].  The two
    reads of the peer lists only feed [console.log]. *)
Definition announceFile (st : FileSharing) (fileData : SharedFile) (now : Z) (pubsub : PubSub)
  : FileSharing * outcome unit :=
  let announcement := announcement_value (self_peerId st) fileData now in
  match publish pubsub FILE_ANNOUNCE_TOPIC (announcement_payload announcement) with
  | Some e => (st, Thrown e)
  | None =>
      match handleFileAnnouncement st announcement with
      | Returned (st', _) => (st', Returned tt)
      | Thrown e => (st, Thrown e)
      end
  end.

(** The browser [File] handed to [shareFile]. *)
Record File : Type := {
  file_name : string;
  file_type : string;
  file_size : Z
}.

(** What the environment decides during one [shareFile] call. *)
Record ShareEnv : Type := {
  (** [Math.random().toString(36).substr(2, 9)] *)
  random_id : string;
  (** [FileReader.readAsDataURL]: [onload] with [reader.result], or
      [onerror] with [reader.error] *)
  reader : outcome string;
  (** [Date.now()] in [shareFile], then in [announceFile] *)
  now_stored : Z;
  now_announced : Z;
  pubsub : PubSub
}.

(** [shareFile(file)]: the settlement of the returned promise. *)
Definition shareFile (st : FileSharing) (file : File) (env : ShareEnv)
  : FileSharing * outcome string :=
  let fileId := random_id env in
  match reader env with
  | Thrown e => (st, Thrown e)
  | Returned result =>
      let fileData :=
        {| sf_id := fileId; sf_name := file_name file; sf_type := file_type file;
           sf_size := file_size file; sf_data := result;
           sf_timestamp := now_stored env |} in
      let st1 :=
        {| self_peerId := self_peerId st;
           sharedFiles := map_set (VStr fileId) fileData (sharedFiles st);
           availableFiles := availableFiles st |} in
      match announceFile st1 fileData (now_announced env) (pubsub env) with
      | (st2, Returned _) => (st2, Returned fileId)
      | (st2, Thrown err) => (st2, Thrown err)
      end
  end.

Definition getSharedFiles (st : FileSharing) : list SharedFile :=
  map_values (sharedFiles st).

Definition getAvailableFiles (st : FileSharing) : list FileInfo :=
  map_values (availableFiles st).

(** [window.removeSharedFile] of index.js:
    [fileSharing.sharedFiles.delete(fileId)]. *)
Definition removeSharedFile (st : FileSharing) (fileId : string) : FileSharing :=
  {| self_peerId := self_peerId st;
     sharedFiles := map_delete (VStr fileId) (sharedFiles st);
     availableFiles := availableFiles st |}.

(** The pub/sub [message] listener of index.js; the boolean tells whether
    [updateAvailableFilesList] is called. *)
Definition onPubsubMessage (st : FileSharing) (topic : string) (data : list byte)
  : FileSharing * bool :=
  if negb (String.eqb topic FILE_ANNOUNCE_TOPIC) then (st, false)
  else
    match obind (Json.JSON_parse (Utf8.TextDecoder_decode data))
                (handleFileAnnouncement st) with
    | Returned (st', Some _) => (st', true)
    | Returned (st', None) => (st', false)
    | Thrown _ => (st, false)
    end.

(** The [peer:connect] listener of index.js: every shared file is announced
    again; a failing [announceFile] ends the loop.  [clock i] is the value of
    [Date.now()] in the [i]-th announcement. *)
Fixpoint reannounce (st : FileSharing) (files : list SharedFile) (i : nat)
    (clock : nat -> Z) (pubsub : PubSub) : FileSharing * outcome unit :=
  match files with
  | [] => (st, Returned tt)
  | file :: rest =>
      match announceFile st file (clock i) pubsub with
      | (st', Returned _) => reannounce st' rest (S i) clock pubsub
      | (st', Thrown e) => (st', Thrown e)
      end
  end.

Definition onPeerConnect (st : FileSharing) (clock : nat -> Z) (pubsub : PubSub)
  : FileSharing * outcome unit :=
  reannounce st (getSharedFiles st) 0 clock pubsub.

(** The request object literal of [requestFile]. *)
Definition request_value (fileId : value) : value :=
  VObj [("type", VStr "request"); ("fileId", fileId)].

(** [{ error: message }]. *)
Definition error_value (msg : string) : value :=
  VObj [("error", VStr msg)].

(** The chunk piped into [lp.encode()] for an object. *)
Definition chunk_of (v : value) : list byte :=
  Utf8.uint8ArrayFromString (Json.JSON_stringify v).

End Core.

(* ================================================================== *)
(** ** The first definition of the class (fileSharing.js, lines 11-146) *)

Module V1.
Import Js Net Core.
Local Open Scope io_scope.

(** The handler that [setupProtocol] registers for
    [FILE_SHARING_PROTOCOL] (lines 20-46).  [get] follows a successful
    [has], so its [None] case is never reached. *)
Definition protocolHandler (st : FileSharing) (stream : Stream) : io unit :=
  try_catch
    (data <- lift (receive_text stream) ;;
     request <- lift (Json.JSON_parse data) ;;
     type <- lift (get_prop request "type") ;;
     fileId <- lift (get_prop request "fileId") ;;
     if strict_eq_string type "request" && map_has fileId (sharedFiles st) then
       match map_get fileId (sharedFiles st) with
       | Some fileData => pipe_to_sink stream (chunk_of (fileData_value fileData))
       | None => ret tt
       end
     else ret tt)
    (fun err => ret tt).

(** [requestFile(peerId, fileId)] (lines 116-137). *)
Definition requestFile (libp2p : Libp2p) (peerId : string) (fileId : value) : io value :=
  dialled <- lift (dialProtocol libp2p peerId FILE_SHARING_PROTOCOL) ;;
  match dialled with
  | None => throw (Error "Cannot read properties of undefined (reading 'sink')")
  | Some stream =>
      pipe_to_sink stream (chunk_of (request_value fileId)) ;;;
      response <- lift (receive_json stream) ;;
      ret response
  end.

End V1.

(* ================================================================== *)
(** ** The second definition of the class (fileSharing.js, lines 157-375) *)

Module V2.
Import Js Net Core.
Local Open Scope io_scope.

(** The handler that [setupProtocol] registers for
    [FILE_SHARING_PROTOCOL] (lines 186-232).  [get] follows a successful
    [has], so its [None] case is never reached. *)
Definition protocolHandler (st : FileSharing) (stream : Stream) : io unit :=
  try_catch
    (data <- lift (receive_text stream) ;;
     request <- lift (Json.JSON_parse data) ;;
     type <- lift (get_prop request "type") ;;
     fileId <- lift (get_prop request "fileId") ;;
     if strict_eq_string type "request" && map_has fileId (sharedFiles st) then
       match map_get fileId (sharedFiles st) with
       | Some fileData => pipe_to_sink stream (chunk_of (fileData_value fileData))
       | None => ret tt
       end
     else
       pipe_to_sink stream (chunk_of (error_value "File not found or invalid request")))
    (fun err =>
       try_catch
         (pipe_to_sink stream (chunk_of (error_value (message err))))
         (fun sendErr => ret tt)).

(** [requestFile(peerId, fileId)] (lines 304-366), for a [peerId] given as
    a string. *)
Definition requestFile (libp2p : Libp2p) (peerId : string) (fileId : value) : io value :=
  try_catch
    (peerIdObj <- try_catch (lift (peerIdFromString libp2p peerId))
                    (fun err => throw (Error ("Invalid peer ID format: " ++ message err))) ;;
     dialled <- lift (dialProtocol libp2p peerIdObj FILE_SHARING_PROTOCOL) ;;
     match dialled with
     | None => throw (Error "Protocol stream establishment failed")
     | Some stream =>
         pipe_to_sink stream (chunk_of (request_value fileId)) ;;;
         response <- lift (receive_json stream) ;;
         error <- lift (get_prop response "error") ;;
         if truthy error then
           text <- lift (to_string error) ;;
           throw (Error ("Peer response error: " ++ text))
         else ret response
     end)
    (fun err => throw (Error ("Failed to request file: " ++ message err))).

End V2.

(* ================================================================== *)
(** ** The lifetime of an instance *)

Module Lifetime.
Import Js Net Core.

(** Everything that touches an instance after its construction.  The
    protocol handler and [requestFile] only read the instance (their
    embeddings return none), so one operation stands for either definition
    of each. *)
Inductive operation : Type :=
| OpShareFile (file : File) (env : ShareEnv)
| OpRemoveSharedFile (fileId : string)
| OpPubsubMessage (topic : string) (data : list byte)
| OpPeerConnect (clock : nat -> Z) (pubsub : PubSub)
| OpInboundStream (stream : Stream)
| OpRequestFile (libp2p : Libp2p) (peerId : string) (fileId : value).

Definition perform (st : FileSharing) (op : operation) : FileSharing :=
  match op with
  | OpShareFile file env => fst (shareFile st file env)
  | OpRemoveSharedFile fileId => removeSharedFile st fileId
  | OpPubsubMessage topic data => fst (onPubsubMessage st topic data)
  | OpPeerConnect clock pubsub => fst (onPeerConnect st clock pubsub)
  | OpInboundStream _ => st
  | OpRequestFile _ _ _ => st
  end.

Inductive reachable (self : string) : FileSharing -> Prop :=
| reachable_new : reachable self (new self)
| reachable_step st op : reachable self st -> reachable self (perform st op).

(** A [Map] never holds two entries under the same key. *)
Fixpoint distinct_keys {V : Type} (m : Map V) : Prop :=
  match m with
  | [] => True
  | (k, _) :: r => map_get k r = None /\ distinct_keys r
  end.

(** Every shared file is stored under its own id. *)
Definition keyed_by_id (m : Map SharedFile) : Prop :=
  Forall (fun e => fst e = VStr (sf_id (snd e))) m.

(** Every available-file record is stored under its own [fileId]. *)
Definition keyed_by_fileId (m : Map FileInfo) : Prop :=
  Forall (fun e => fst e = fi_fileId (snd e)) m.

(** No available-file record names the local peer. *)
Definition foreign (self : string) (m : Map FileInfo) : Prop :=
  Forall (fun e => strict_eq_string (fi_peerId (snd e)) self = false) m.

Record invariant (st : FileSharing) : Prop := {
  shared_distinct : distinct_keys (sharedFiles st);
  shared_keyed : keyed_by_id (sharedFiles st);
  available_distinct : distinct_keys (availableFiles st);
  available_keyed : keyed_by_fileId (availableFiles st);
  available_foreign : foreign (self_peerId st) (availableFiles st)
}.

(** An operation that may take the entry of [fileId] out of the shared-files
    table or overwrite it: its removal, and a [shareFile] call that reads the
    file and draws [fileId] again. *)
Definition displaces (op : operation) (fileId : string) : bool :=
  match op with
  | OpRemoveSharedFile k => String.eqb k fileId
  | OpShareFile _ env =>
      match reader env with
      | Returned _ => String.eqb (random_id env) fileId
      | Thrown _ => false
      end
  | _ => false
  end.

End Lifetime.

(* ================================================================== *)
(** ** Sample data *)

Module Scenario.
Import Js Net Core.

(** Two peer ids, the local one and a remote one. *)
Definition me : string := "QmNnooDu7bfjPFoTZYxMNLWUQJyrVwtbZg5gBMjTezGAJN".
Definition other : string := "QmQCU2EcMqAqQPR2i9bChDtGNJchTbq5TbXJJ16u19uLTa".

Definition accepting : PubSub := {| publish := fun _ _ => None |}.

Definition failing : PubSub :=
  {| publish := fun _ _ => Some (Error "PublishError.NoPeersSubscribedToTopic") |}.

Definition a_txt : File :=
  {| file_name := "a.txt"; file_type := "text/plain"; file_size := 1024 |}.

Definition b_png : File :=
  {| file_name := "b.png"; file_type := "image/png"; file_size := 2048 |}.

Definition share_env (id : string) (now : Z) (ps : PubSub) : ShareEnv :=
  {| random_id := id; reader := Returned "data:text/plain;base64,aGVsbG8=";
     now_stored := now; now_announced := (now + 1)%Z; pubsub := ps |}.

(** The record [shareFile] stores for [a_txt] under the id [k3x9q0z1a]. *)
Definition a_record : SharedFile :=
  {| sf_id := "k3x9q0z1a"; sf_name := "a.txt"; sf_type := "text/plain";
     sf_size := 1024; sf_data := "data:text/plain;base64,aGVsbG8=";
     sf_timestamp := 1700000000000 |}.

(** The instance after [shareFile(a_txt)] drew the id [k3x9q0z1a]. *)
Definition sharing_a : FileSharing :=
  fst (shareFile (new me) a_txt (share_env "k3x9q0z1a" 1700000000000 accepting)).

(** Then [shareFile(b_png)] draws the same id. *)
Definition sharing_b_same_id : FileSharing :=
  fst (shareFile sharing_a b_png (share_env "k3x9q0z1a" 1700000005000 accepting)).

Definition remote_announcement (fileName : string) (timestamp : Z) : value :=
  VObj [("peerId", VStr other); ("fileId", VStr "q7w8e9r0t");
        ("fileName", VStr fileName); ("fileSize", VNum 1024);
        ("timestamp", VNum timestamp)].

Definition remote_info (fileName : string) (timestamp : Z) : FileInfo :=
  {| fi_peerId := VStr other; fi_fileId := VStr "q7w8e9r0t";
     fi_fileName := VStr fileName; fi_fileSize := VNum 1024;
     fi_timestamp := VNum timestamp |}.

Definition own_announcement : value :=
  VObj [("peerId", VStr me); ("fileId", VStr "k3x9q0z1a");
        ("fileName", VStr "a.txt"); ("fileSize", VNum 1024);
        ("timestamp", VNum 1700000000001)].

Definition own_info : FileInfo :=
  {| fi_peerId := VStr me; fi_fileId := VStr "k3x9q0z1a";
     fi_fileName := VStr "a.txt"; fi_fileSize := VNum 1024;
     fi_timestamp := VNum 1700000000001 |}.

(** A stream on which the remote side sent [sent] and closed, and whose
    sink accepts every write. *)
Definition stream_carrying (sent : list byte) : Stream :=
  {| source := Returned sent; sink := fun _ => None |}.

(** An inbound stream carrying one framed message. *)
Definition inbound (message : value) : Stream :=
  stream_carrying (Lp.encode [chunk_of message]).

(** An inbound stream carrying one frame that is not JSON. *)
Definition inbound_garbage : Stream :=
  stream_carrying (Lp.encode [Utf8.uint8ArrayFromString "not json"]).

(** A stream whose source aborts with an [Error] that has no message. *)
Definition aborted : Stream :=
  {| source := Thrown (Error ""); sink := fun _ => None |}.

(** A node that knows the two peers above: [peerIdFromString] accepts their
    ids and treats any other text as malformed, and a dial yields
    [stream]. *)
Definition node (stream : Stream) : Libp2p :=
  {| peerIdFromString := fun s =>
       if String.eqb s me || String.eqb s other then Returned s
       else Thrown (Error "Non-base58btc character");
     dialProtocol := fun _ _ => Returned (Some stream) |}.

(** A file of 3 MiB: its data URL holds 4 MiB of base64 text. *)
Definition big_record : SharedFile :=
  {| sf_id := "m4p7x2c9d"; sf_name := "big.bin"; sf_type := "application/octet-stream";
     sf_size := 3145728;
     sf_data := "data:application/octet-stream;base64,"
                ++ string_of_list_ascii (List.repeat "A"%char (N.to_nat 4194304));
     sf_timestamp := 1700000009000 |}.

End Scenario.

(* ================================================================== *)
(** ** Vocabulary of the statements *)

Module Shape.
Import Js Json Net.

(** One call of [stream.sink] at position [n] with the framed [chunk]. *)
Definition attempt (stream : Stream) (n : nat) (chunk : list byte) : write :=
  {| bytes := Lp.encode [chunk];
     accepted := match sink stream n with None => true | Some _ => false end |}.

(** A chunk that the framing codec accepts: at most [Lp.MAX_DATA_LENGTH]
    bytes. *)
Definition fits (chunk : list byte) : bool :=
  (N.of_nat (List.length chunk) <=? Lp.MAX_DATA_LENGTH)%N.

(** A value free of [undefined]: what [JSON.parse] can give back. *)
Fixpoint no_undefined (v : value) : bool :=
  match v with
  | VUndefined => false
  | VArr items => forallb no_undefined items
  | VObj fields => forallb (fun kv => no_undefined (snd kv)) fields
  | _ => true
  end.

(** The text of the elements of an array and of the members of an object,
    as [stringify] prints them. *)
Fixpoint stringify_elements (l : list value) (first : bool) : string :=
  match l with
  | [] => ""
  | x :: r => sep first ++ stringify x ++ stringify_elements r false
  end.

Fixpoint stringify_members (l : list (string * value)) (first : bool) : string :=
  match l with
  | [] => ""
  | (k, x) :: r =>
      if is_undefined x then stringify_members r first
      else sep first ++ quote k ++ ":" ++ stringify x ++ stringify_members r false
  end.

(** What may follow a value in the text [stringify] prints. *)
Definition delimiter (rest : string) : bool :=
  match rest with
  | "" => true
  | String c _ => (c =? ",")%char || (c =? "]")%char || (c =? "}")%char
  end.

(** The characters a printed value can start with. *)
Definition value_start (c : ascii) : bool :=
  (c =? "{")%char || (c =? "[")%char || (c =? dquote)%char || (c =? "n")%char
  || (c =? "t")%char || (c =? "f")%char || (c =? "-")%char
  || match digit_of_char c with Some _ => true | None => false end.

Definition number_start (c : ascii) : bool :=
  (c =? "-")%char || match digit_of_char c with Some _ => true | None => false end.

(** The parser reads back the text of [v], whatever delimiter follows it,
    with as much fuel as the text is long. *)
Definition reads_back (v : value) : Prop :=
  no_undefined v = true ->
  forall (fuel : nat) (rest : string),
    String.length (stringify v) <= fuel ->
    delimiter rest = true ->
    parse_value fuel (stringify v ++ rest) = Some (v, rest).

End Shape.

(* ================================================================== *)
(** ** The page: the parts of index.js that drive the class

    [setTimeout] calls, which only clear the status line later, are dropped:
    the status is the text right after a handler has run.
    [updateAvailableFilesList] is left out: it formats [fileSize] values that
    arrive as arbitrary JSON, whose coercion to a number is not embedded. *)

Module Ui.
Import Js Net Core.

Definition units : list string := ["B"; "KB"; "MB"; "GB"].

(** The [while] loop of [formatFileSize]: [size] is [bytes / 1024^unitIndex]
    (a division by 1024 is exact in floating point), so [size >= 1024] reads
    [1024^(unitIndex+1) <= bytes].  The loop runs at most
    [units.length - 1] rounds. *)
Fixpoint scale (rounds : nat) (bytes : Z) (unitIndex : nat) : nat :=
  match rounds with
  | O => unitIndex
  | S r =>
      if (1024 ^ Z.of_nat (S unitIndex) <=? bytes)%Z
         && (unitIndex <? List.length units - 1)%nat
      then scale r bytes (S unitIndex)
      else unitIndex
  end.

(** [(num / den).toFixed(1)] for [0 <= num] and [0 < den].  From 10^21 on
    the value, an integer there, is printed as ToString prints it.  Below, it
    is the integer [n] for which [n / 10] is closest to the value, the larger
    one on a tie, printed with one digit after the point. *)
Definition toFixed1_abs (num den : Z) : string :=
  if (10 ^ 21 * den <=? num)%Z then Number_toString (num / den)
  else
    let n := ((20 * num + den) / (2 * den))%Z in
    string_of_Z (n / 10) ++ "." ++ string_of_Z (n mod 10).

Definition toFixed1 (num den : Z) : string :=
  if (num <? 0)%Z then "-" ++ toFixed1_abs (- num) den
  else toFixed1_abs num den.

(** [formatFileSize(bytes)] (index.js, lines 239-250), for a [bytes] that is
    an integer held exactly, as [File.size] is. *)
Definition formatFileSize (bytes : Z) : string :=
  let unitIndex := scale (List.length units - 1) bytes 0 in
  toFixed1 bytes (1024 ^ Z.of_nat unitIndex) ++ " " ++ List.nth unitIndex units "".

(** An [li] element: its [className] and the markup assigned to its
    [innerHTML]. *)
Record ListItem : Type := {
  className : string;
  innerHTML : string
}.

Definition nl : string := String "010" "".
Definition dq : string := String "034" "".

(** The element that [updateSharedFilesList] builds for one file
    (lines 168-177). *)
Definition sharedFileItem (file : SharedFile) : ListItem :=
  {| className := "flex items-center gap-2 mb-2";
     innerHTML :=
       nl ++ "        <span>" ++ sf_name file ++ " (" ++ formatFileSize (sf_size file)
          ++ ")</span>" ++
       nl ++ "        <button class=" ++ dq
          ++ "bg-red-500 hover:bg-red-700 text-white text-sm py-1 px-2 rounded" ++ dq ++
       nl ++ "          onclick=" ++ dq ++ "removeSharedFile('" ++ sf_id file ++ "')"
          ++ dq ++ ">" ++
       nl ++ "          Remove" ++
       nl ++ "        </button>" ++
       nl ++ "      " |}.

(** What the handlers below write on the page: the text of [#upload-status]
    and the children of [#shared-files-list]. *)
Record Page : Type := {
  uploadStatus : string;
  sharedFilesList : list ListItem
}.

(** The page together with [globalThis.fileSharing]. *)
Record App : Type := {
  fileSharing : FileSharing;
  page : Page
}.

(** [updateSharedFilesList()] (lines 163-179): the list is emptied and
    rebuilt from [getSharedFiles()]. *)
Definition updateSharedFilesList (app : App) : App :=
  {| fileSharing := fileSharing app;
     page := {| uploadStatus := uploadStatus (page app);
                sharedFilesList := List.map sharedFileItem (getSharedFiles (fileSharing app)) |} |}.

Definition setUploadStatus (app : App) (text : string) : App :=
  {| fileSharing := fileSharing app;
     page := {| uploadStatus := text; sharedFilesList := sharedFilesList (page app) |} |}.

(** The [change] listener of the file input (lines 120-136); [file] is
    [event.target.files[0]]. *)
Definition onFileInputChange (app : App) (file : option File) (env : ShareEnv) : App :=
  match file with
  | None => app
  | Some file =>
      let app1 := setUploadStatus app "Processing file..." in
      match shareFile (fileSharing app1) file env with
      | (fs, Returned _) =>
          updateSharedFilesList
            (setUploadStatus {| fileSharing := fs; page := page app1 |}
               "File shared successfully!")
      | (fs, Thrown err) =>
          setUploadStatus {| fileSharing := fs; page := page app1 |}
            ("Error: " ++ message err)
      end
  end.

(** [window.removeSharedFile] (lines 211-214), with its repaint. *)
Definition window_removeSharedFile (app : App) (fileId : string) : App :=
  updateSharedFilesList
    {| fileSharing := removeSharedFile (fileSharing app) fileId; page := page app |}.

(** The [a] element that [downloadFile] builds and clicks. *)
Record Anchor : Type := {
  href : value;
  download : value
}.

(** [window.downloadFile] (lines 216-237); [requestFile] is the method of
    whichever definition of the class the page imports.  The result is the
    page and the anchor that was clicked, if any. *)
Definition window_downloadFile
    (requestFile : Libp2p -> string -> value -> io value)
    (app : App) (libp2p : Libp2p) (peerId fileId : string) : App * option Anchor :=
  let app1 := setUploadStatus app "Downloading file..." in
  let settled :=
    obind (fst (run (requestFile libp2p peerId (VStr fileId)))) (fun fileData =>
    obind (get_prop fileData "data") (fun data =>
    obind (get_prop fileData "name") (fun name =>
    Returned {| href := data; download := name |}))) in
  match settled with
  | Returned a => (setUploadStatus app1 "File downloaded successfully!", Some a)
  | Thrown err => (setUploadStatus app1 ("Error downloading: " ++ message err), None)
  end.

End Ui.

(* ================================================================== *)
(** * Properties *)

(** ** [Map] objects *)

Section MapFacts.
Import Js Lifetime.

Lemma same_value_zero_eq (a b : value) :
  same_value_zero a b = true -> a = b.
Proof.
  destruct a, b; simpl; try discriminate; try reflexivity; intros H.
  - apply Bool.eqb_prop in H. now subst.
  - apply Z.eqb_eq in H. now subst.
  - apply String.eqb_eq in H. now subst.
Qed.

Lemma same_value_zero_sym (a b : value) :
  same_value_zero a b = same_value_zero b a.
Proof.
  destruct a, b; simpl; try reflexivity.
  - now destruct b, b0.
  - apply Z.eqb_sym.
  - apply String.eqb_sym.
Qed.

Lemma same_value_zero_str (s : string) :
  same_value_zero (VStr s) (VStr s) = true.
Proof. simpl. apply String.eqb_refl. Qed.

Context {V : Type}.
Implicit Types (m : Map V) (k : value) (v : V).

Lemma map_get_set_same m k v :
  same_value_zero k k = true -> map_get k (map_set k v m) = Some v.
Proof.
  intros Hk. induction m as [|[k0 v0] r IH]; simpl.
  - now rewrite Hk.
  - destruct (same_value_zero k0 k) eqn:E; simpl; rewrite E; auto.
Qed.

Lemma map_get_set_other m k k' v :
  same_value_zero k k' = false -> map_get k' (map_set k v m) = map_get k' m.
Proof.
  intros Hk. induction m as [|[k0 v0] r IH]; simpl.
  - now rewrite Hk.
  - destruct (same_value_zero k0 k) eqn:E; simpl.
    + apply same_value_zero_eq in E. subst k0. now rewrite Hk.
    + now rewrite IH.
Qed.

Lemma map_get_delete_other m k k' :
  same_value_zero k k' = false -> map_get k' (map_delete k m) = map_get k' m.
Proof.
  intros Hk. induction m as [|[k0 v0] r IH]; simpl; [reflexivity|].
  destruct (same_value_zero k0 k) eqn:E; simpl.
  - apply same_value_zero_eq in E. subst k0. now rewrite Hk.
  - now rewrite IH.
Qed.

Lemma map_get_delete_none m k k' :
  map_get k' m = None -> map_get k' (map_delete k m) = None.
Proof.
  induction m as [|[k0 v0] r IH]; simpl; [reflexivity|].
  destruct (same_value_zero k0 k') eqn:E'; [discriminate|]. intros H.
  destruct (same_value_zero k0 k); simpl; [assumption|].
  rewrite E'. auto.
Qed.

Lemma distinct_keys_set m k v :
  distinct_keys m -> distinct_keys (map_set k v m).
Proof.
  induction m as [|[k0 v0] r IH]; simpl.
  - auto.
  - intros [Hnone Hr]. destruct (same_value_zero k0 k) eqn:E; simpl.
    + auto.
    + split; [|auto]. rewrite map_get_set_other; [assumption|].
      now rewrite same_value_zero_sym.
Qed.

Lemma distinct_keys_delete m k :
  distinct_keys m -> distinct_keys (map_delete k m).
Proof.
  induction m as [|[k0 v0] r IH]; simpl; [auto|].
  intros [Hnone Hr]. destruct (same_value_zero k0 k); simpl; [assumption|].
  split; [now apply map_get_delete_none | auto].
Qed.

Lemma Forall_map_set (P : value * V -> Prop) m k v :
  (forall k0, same_value_zero k0 k = true -> P (k0, v)) ->
  P (k, v) -> Forall P m -> Forall P (map_set k v m).
Proof.
  intros Hrep Hnew. induction m as [|[k0 v0] r IH]; simpl; intros H.
  - constructor; [assumption | constructor].
  - inversion H; subst. destruct (same_value_zero k0 k) eqn:E.
    + constructor; auto.
    + constructor; auto.
Qed.

Lemma Forall_map_delete (P : value * V -> Prop) m k :
  Forall P m -> Forall P (map_delete k m).
Proof.
  induction m as [|[k0 v0] r IH]; simpl; intros H; [constructor|].
  inversion H; subst. destruct (same_value_zero k0 k); [assumption|].
  constructor; auto.
Qed.

(** With entries stored under the key their value names, the values that
    name [k] are those of the entries under [k]. *)
Lemma filter_key_absent (key_of : V -> value) m k :
  Forall (fun e => fst e = key_of (snd e)) m ->
  map_get k m = None ->
  filter (fun x => same_value_zero (key_of x) k) (map_values m) = [].
Proof.
  induction m as [|[k0 v0] r IH]; simpl; intros H Hget; [reflexivity|].
  inversion H as [|? ? Hk Hr]; subst. simpl in Hk. subst k0.
  destruct (same_value_zero (key_of v0) k); [discriminate|]. auto.
Qed.

Lemma filter_key_set (key_of : V -> value) m k v :
  distinct_keys m ->
  Forall (fun e => fst e = key_of (snd e)) m ->
  key_of v = k -> same_value_zero k k = true ->
  filter (fun x => same_value_zero (key_of x) k) (map_values (map_set k v m)) = [v].
Proof.
  intros Hd Hf Hv Hk. induction m as [|[k0 v0] r IH]; simpl.
  - rewrite Hv, Hk. reflexivity.
  - destruct Hd as [Hnone Hd]. inversion Hf as [|? ? Hk0 Hr]; subst.
    simpl in Hk0. subst k0.
    destruct (same_value_zero (key_of v0) (key_of v)) eqn:E; simpl.
    + rewrite Hk. f_equal.
      apply same_value_zero_eq in E. rewrite E in Hnone.
      now apply filter_key_absent.
    + rewrite E. auto.
Qed.

Lemma map_get_In m k v :
  map_get k m = Some v -> In v (map_values m).
Proof.
  induction m as [|[k0 v0] r IH]; simpl; [discriminate|].
  destruct (same_value_zero k0 k); intros H.
  - left. congruence.
  - right. auto.
Qed.

End MapFacts.

(* ================================================================== *)
(** ** The catalog: announcements and shared files *)

Section CatalogFacts.
Import Js Net Core Lifetime.

Lemma destructure_own_announcement (self : string) (fileData : SharedFile) (now : Z) :
  destructure_announcement (announcement_value self fileData now) =
  Returned {| fi_peerId := VStr self; fi_fileId := VStr (sf_id fileData);
              fi_fileName := VStr (sf_name fileData);
              fi_fileSize := VNum (sf_size fileData); fi_timestamp := VNum now |}.
Proof. reflexivity. Qed.

Lemma handle_own_announcement (st : FileSharing) (fileData : SharedFile) (now : Z) :
  handleFileAnnouncement st (announcement_value (self_peerId st) fileData now) =
  Returned (st, None).
Proof.
  unfold handleFileAnnouncement. rewrite destructure_own_announcement.
  simpl. now rewrite String.eqb_refl.
Qed.

Lemma announceFile_state (st : FileSharing) (fileData : SharedFile) (now : Z) (ps : PubSub) :
  fst (announceFile st fileData now ps) = st.
Proof.
  unfold announceFile. destruct (publish ps _ _); [reflexivity|].
  now rewrite handle_own_announcement.
Qed.

Lemma announceFile_outcome (st : FileSharing) (fileData : SharedFile) (now : Z) (ps : PubSub) :
  snd (announceFile st fileData now ps) =
  match publish ps FILE_ANNOUNCE_TOPIC
          (announcement_payload (announcement_value (self_peerId st) fileData now)) with
  | Some e => Thrown e
  | None => Returned tt
  end.
Proof.
  unfold announceFile. destruct (publish ps _ _); [reflexivity|].
  now rewrite handle_own_announcement.
Qed.

Lemma reannounce_state (files : list SharedFile) (st : FileSharing) (i : nat)
    (clock : nat -> Z) (ps : PubSub) :
  fst (reannounce st files i clock ps) = st.
Proof.
  revert st i. induction files as [|f r IH]; intros st i; simpl; [reflexivity|].
  pose proof (announceFile_state st f (clock i) ps) as Hst.
  destruct (announceFile st f (clock i) ps) as [st' [u|e]]; simpl in *; subst st'; auto.
Qed.

(** The state in which [shareFile] leaves the instance. *)
Lemma shareFile_state (st : FileSharing) (file : File) (env : ShareEnv) :
  fst (shareFile st file env) =
  match reader env with
  | Thrown _ => st
  | Returned result =>
      {| self_peerId := self_peerId st;
         sharedFiles :=
           map_set (VStr (random_id env))
             {| sf_id := random_id env; sf_name := file_name file;
                sf_type := file_type file; sf_size := file_size file;
                sf_data := result; sf_timestamp := now_stored env |}
             (sharedFiles st);
         availableFiles := availableFiles st |}
  end.
Proof.
  unfold shareFile. destruct (reader env) as [result|e]; [|reflexivity].
  match goal with
  | |- fst (match announceFile ?s ?f ?n ?p with _ => _ end) = _ =>
      pose proof (announceFile_state s f n p) as Hst;
      destruct (announceFile s f n p) as [st2 [u|err]]
  end; simpl in *; now subst st2.
Qed.

Lemma handleFileAnnouncement_shared (st st' : FileSharing) (a : value) (r : option FileInfo) :
  handleFileAnnouncement st a = Returned (st', r) ->
  sharedFiles st' = sharedFiles st /\ self_peerId st' = self_peerId st.
Proof.
  unfold handleFileAnnouncement.
  destruct (destructure_announcement a) as [info|e]; simpl; [|discriminate].
  destruct (strict_eq_string _ _); intros [= <- _]; auto.
Qed.

Lemma onPubsubMessage_shared (st : FileSharing) (topic : string) (data : list byte) :
  sharedFiles (fst (onPubsubMessage st topic data)) = sharedFiles st.
Proof.
  unfold onPubsubMessage. destruct (negb _); [reflexivity|].
  destruct (Json.JSON_parse _) as [a|e]; simpl; [|reflexivity].
  destruct (handleFileAnnouncement st a) as [[st' [i|]]|e] eqn:E; simpl;
    try reflexivity; now apply handleFileAnnouncement_shared in E.
Qed.

Lemma invariant_new (self : string) : invariant (new self).
Proof. split; simpl; auto; constructor. Qed.

Lemma invariant_handleFileAnnouncement (st st' : FileSharing) (a : value) (r : option FileInfo) :
  invariant st -> handleFileAnnouncement st a = Returned (st', r) -> invariant st'.
Proof.
  intros [H1 H2 H3 H4 H5]. unfold handleFileAnnouncement.
  destruct (destructure_announcement a) as [info|e]; simpl; [|discriminate].
  destruct (strict_eq_string _ _) eqn:Hself; intros [= <- _]; split; simpl; auto.
  - now apply distinct_keys_set.
  - apply Forall_map_set; auto.
    intros k0 Hk0. simpl. now apply same_value_zero_eq.
  - apply Forall_map_set; auto.
Qed.

Lemma invariant_perform (st : FileSharing) (op : operation) :
  invariant st -> invariant (perform st op).
Proof.
  intros Hinv. destruct op as [file env|fileId|topic data|clock ps|stream|libp2p peerId fileId];
    simpl; auto.
  - rewrite shareFile_state. destruct (reader env); [|assumption].
    destruct Hinv as [H1 H2 H3 H4 H5]. split; simpl; auto.
    + now apply distinct_keys_set.
    + apply Forall_map_set; auto.
      intros k0 Hk0. simpl. now apply same_value_zero_eq.
  - destruct Hinv as [H1 H2 H3 H4 H5]. split; simpl; auto.
    + now apply distinct_keys_delete.
    + now apply Forall_map_delete.
  - unfold onPubsubMessage. destruct (negb _); [assumption|].
    destruct (Json.JSON_parse _) as [a|e]; simpl; [|assumption].
    destruct (handleFileAnnouncement st a) as [[st' [i|]]|e] eqn:E; simpl;
      try assumption; eapply invariant_handleFileAnnouncement; eauto.
  - unfold onPeerConnect. now rewrite reannounce_state.
Qed.

Lemma reachable_invariant (self : string) (st : FileSharing) :
  reachable self st -> invariant st.
Proof.
  induction 1; [apply invariant_new | now apply invariant_perform].
Qed.

Lemma distinct_ids (m : Map SharedFile) :
  distinct_keys m -> keyed_by_id m -> NoDup (List.map sf_id (map_values m)).
Proof.
  induction m as [|[k0 f0] r IH]; simpl; intros Hd Hk; [constructor|].
  destruct Hd as [Hnone Hd]. inversion Hk as [|? ? Hk0 Hr]; subst.
  simpl in Hk0. subst k0. constructor; [|auto].
  intros Hin. apply in_map_iff in Hin. destruct Hin as [f [Hid Hf]].
  pose proof (filter_key_absent (fun x => VStr (sf_id x)) r (VStr (sf_id f0)) Hr Hnone) as Hnil.
  assert (Hin : In f (filter (fun x => same_value_zero (VStr (sf_id x)) (VStr (sf_id f0)))
                        (map_values r))).
  { apply filter_In. split; [assumption|]. simpl. rewrite Hid. apply String.eqb_refl. }
  rewrite Hnil in Hin. destruct Hin.
Qed.

(** What an operation leaves in place in the shared-files table. *)
Lemma perform_keeps_entry (st : FileSharing) (op : operation) (fileId : string) (f : SharedFile) :
  displaces op fileId = false ->
  map_get (VStr fileId) (sharedFiles st) = Some f ->
  map_get (VStr fileId) (sharedFiles (perform st op)) = Some f.
Proof.
  destruct op as [file env|k|topic data|clock ps|stream|libp2p peerId k]; simpl;
    intros Hd Hget; auto.
  - rewrite shareFile_state. destruct (reader env); [|assumption].
    simpl. now rewrite map_get_set_other.
  - now rewrite map_get_delete_other.
  - now rewrite onPubsubMessage_shared.
  - unfold onPeerConnect. now rewrite reannounce_state.
Qed.

End CatalogFacts.

(* ================================================================== *)
(** ** Claims about the catalog *)

Section CatalogClaims.
Import Js Net Core Lifetime.

Lemma reachable_self (self : string) (st : FileSharing) :
  reachable self st -> self_peerId st = self.
Proof.
  induction 1 as [|st op Hr IH]; [reflexivity|].
  destruct op as [file env|fileId|topic data|clock ps|stream|libp2p peerId fileId];
    simpl; auto.
  - rewrite shareFile_state. now destruct (reader env).
  - unfold onPubsubMessage. destruct (negb _); [assumption|].
    destruct (Json.JSON_parse _) as [a|e]; simpl; [|assumption].
    destruct (handleFileAnnouncement st a) as [[st' [i|]]|e] eqn:E; simpl;
      try assumption; apply handleFileAnnouncement_shared in E;
      destruct E as [_ E]; congruence.
  - unfold onPeerConnect. now rewrite reannounce_state.
Qed.

(** C3.  An announcement whose [peerId] is the local peer's own identity
    makes [handleFileAnnouncement] return without a record and leaves the
    instance, hence the available-files table, as it was.  This covers the
    call that [announceFile] makes on its own announcement after publishing,
    so [announceFile] leaves the table unchanged too, and no record of a
    running instance ever names the local peer. *)
Theorem self_announcement_is_dropped
    (self : string) (st : FileSharing) (announcement : value) (info : FileInfo)
    (fileData : SharedFile) (now : Z) (ps : PubSub) :
  reachable self st ->
  destructure_announcement announcement = Returned info ->
  fi_peerId info = VStr self ->
  handleFileAnnouncement st announcement = Returned (st, None) /\
  handleFileAnnouncement st (announcement_value (self_peerId st) fileData now)
    = Returned (st, None) /\
  availableFiles (fst (announceFile st fileData now ps)) = availableFiles st /\
  Forall (fun r => fi_peerId r <> VStr self) (getAvailableFiles st).
Proof.
  intros Hreach Hinfo Hself.
  pose proof (reachable_self _ _ Hreach) as Hme.
  repeat split.
  - unfold handleFileAnnouncement. rewrite Hinfo. simpl.
    rewrite Hself, Hme. simpl. now rewrite String.eqb_refl.
  - apply handle_own_announcement.
  - now rewrite announceFile_state.
  - pose proof (available_foreign _ (reachable_invariant _ _ Hreach)) as Hf.
    unfold foreign in Hf. rewrite Hme in Hf. unfold getAvailableFiles, map_values.
    apply Forall_map. eapply Forall_impl; [|exact Hf].
    intros [k r] Hr Heq. simpl in *. rewrite Heq in Hr. simpl in Hr.
    now rewrite String.eqb_refl in Hr.
Qed.

Lemma self_announcement_is_dropped_witness :
  handleFileAnnouncement Scenario.sharing_a Scenario.own_announcement
    = Returned (Scenario.sharing_a, None).
Proof.
  apply (self_announcement_is_dropped Scenario.me Scenario.sharing_a
           Scenario.own_announcement Scenario.own_info
           Scenario.a_record 0%Z Scenario.accepting).
  - apply (reachable_step Scenario.me (new Scenario.me)
             (OpShareFile Scenario.a_txt
                (Scenario.share_env "k3x9q0z1a" 1700000000000 Scenario.accepting))).
    apply reachable_new.
  - reflexivity.
  - reflexivity.
Defined.

(** C4.  Two announcements of other peers that carry the same [fileId],
    handled one after the other: both are stored, and afterwards the
    available-files table holds exactly one record for that [fileId], equal
    field for field to the announcement handled last, whatever the two
    timestamps are. *)
Theorem last_announcement_wins
    (self : string) (st : FileSharing) (first second : value) (info1 info2 : FileInfo) :
  reachable self st ->
  destructure_announcement first = Returned info1 ->
  destructure_announcement second = Returned info2 ->
  fi_peerId info1 <> VStr self ->
  fi_peerId info2 <> VStr self ->
  same_value_zero (fi_fileId info1) (fi_fileId info2) = true ->
  exists st1 st2,
    handleFileAnnouncement st first = Returned (st1, Some info1) /\
    handleFileAnnouncement st1 second = Returned (st2, Some info2) /\
    filter (fun r => same_value_zero (fi_fileId r) (fi_fileId info2))
      (getAvailableFiles st2) = [info2] /\
    map_get (fi_fileId info2) (availableFiles st2) = Some info2.
Proof.
  intros Hreach H1 H2 Hp1 Hp2 Hsame.
  pose proof (reachable_self _ _ Hreach) as Hme.
  assert (Hne : forall i, fi_peerId i <> VStr self ->
                          strict_eq_string (fi_peerId i) self = false).
  { intros i Hi. destruct (fi_peerId i); simpl; try reflexivity.
    apply String.eqb_neq. congruence. }
  assert (E1 : handleFileAnnouncement st first =
               Returned ({| self_peerId := self_peerId st; sharedFiles := sharedFiles st;
                            availableFiles := map_set (fi_fileId info1) info1 (availableFiles st) |},
                         Some info1)).
  { unfold handleFileAnnouncement. rewrite H1. simpl. rewrite Hme, (Hne _ Hp1). reflexivity. }
  eexists. eexists. split; [exact E1|].
  pose proof (invariant_handleFileAnnouncement _ _ _ _ (reachable_invariant _ _ Hreach) E1)
    as [_ _ Hd Hk _]. simpl in Hd, Hk.
  assert (Hrefl : same_value_zero (fi_fileId info2) (fi_fileId info2) = true).
  { pose proof (same_value_zero_eq _ _ Hsame) as Heq. now rewrite Heq in Hsame. }
  split; [|split].
  - unfold handleFileAnnouncement. rewrite H2. simpl. rewrite Hme, (Hne _ Hp2). reflexivity.
  - simpl. unfold getAvailableFiles. simpl.
    now apply (filter_key_set fi_fileId).
  - simpl. now apply map_get_set_same.
Qed.

Lemma last_announcement_wins_witness :
  exists st1 st2,
    handleFileAnnouncement Scenario.sharing_a
      (Scenario.remote_announcement "draft.txt" 1700000009000)
      = Returned (st1, Some (Scenario.remote_info "draft.txt" 1700000009000)) /\
    handleFileAnnouncement st1
      (Scenario.remote_announcement "final.txt" 1700000001000)
      = Returned (st2, Some (Scenario.remote_info "final.txt" 1700000001000)) /\
    filter (fun r => same_value_zero (fi_fileId r) (VStr "q7w8e9r0t"))
      (getAvailableFiles st2) = [Scenario.remote_info "final.txt" 1700000001000] /\
    map_get (VStr "q7w8e9r0t") (availableFiles st2)
      = Some (Scenario.remote_info "final.txt" 1700000001000).
Proof.
  apply (last_announcement_wins Scenario.me Scenario.sharing_a
           (Scenario.remote_announcement "draft.txt" 1700000009000)
           (Scenario.remote_announcement "final.txt" 1700000001000)
           (Scenario.remote_info "draft.txt" 1700000009000)
           (Scenario.remote_info "final.txt" 1700000001000)).
  - apply (reachable_step Scenario.me (new Scenario.me)
             (OpShareFile Scenario.a_txt
                (Scenario.share_env "k3x9q0z1a" 1700000000000 Scenario.accepting))).
    apply reachable_new.
  - reflexivity.
  - reflexivity.
  - discriminate.
  - discriminate.
  - reflexivity.
Defined.

(** C5.  When [shareFile(file)] resolves with [fileId], [getSharedFiles()]
    holds exactly one entry whose [id] is [fileId]; its [name] and [size]
    are those of [file]. *)
Theorem shared_file_is_listed_once
    (self : string) (st st' : FileSharing) (file : File) (env : ShareEnv) (fileId : string) :
  reachable self st ->
  shareFile st file env = (st', Returned fileId) ->
  exists fileData,
    filter (fun f => String.eqb (sf_id f) fileId) (getSharedFiles st') = [fileData] /\
    sf_id fileData = fileId /\
    sf_name fileData = file_name file /\
    sf_size fileData = file_size file.
Proof.
  intros Hreach Hshare.
  pose proof (shareFile_state st file env) as Hst. rewrite Hshare in Hst. simpl in Hst.
  assert (Hid : fileId = random_id env).
  { unfold shareFile in Hshare. destruct (reader env); [|discriminate].
    destruct (announceFile _ _ _ _) as [st2 [u|err]]; congruence. }
  destruct (reader env) as [result|e] eqn:Hreader.
  2:{ unfold shareFile in Hshare. rewrite Hreader in Hshare. discriminate. }
  destruct (reachable_invariant _ _ Hreach) as [Hd Hk _ _ _].
  set (fileData :=
         {| sf_id := random_id env; sf_name := file_name file; sf_type := file_type file;
            sf_size := file_size file; sf_data := result; sf_timestamp := now_stored env |})
    in *.
  exists fileData. split; [|split; [|split]].
  - subst st' fileId. unfold getSharedFiles. simpl.
    exact (filter_key_set (fun f => VStr (sf_id f)) (sharedFiles st)
             (VStr (random_id env)) fileData Hd Hk eq_refl (same_value_zero_str _)).
  - symmetry. exact Hid.
  - reflexivity.
  - reflexivity.
Qed.

Lemma shared_file_is_listed_once_witness :
  exists fileData,
    filter (fun f => String.eqb (sf_id f) "k3x9q0z1a")
      (getSharedFiles Scenario.sharing_b_same_id) = [fileData] /\
    sf_id fileData = "k3x9q0z1a" /\
    sf_name fileData = "b.png" /\
    sf_size fileData = 2048%Z.
Proof.
  apply (shared_file_is_listed_once Scenario.me Scenario.sharing_a
           Scenario.sharing_b_same_id Scenario.b_png
           (Scenario.share_env "k3x9q0z1a" 1700000005000 Scenario.accepting)).
  - apply (reachable_step Scenario.me (new Scenario.me)
             (OpShareFile Scenario.a_txt
                (Scenario.share_env "k3x9q0z1a" 1700000000000 Scenario.accepting))).
    apply reachable_new.
  - reflexivity.
Defined.

(** C7.  When the [publish] call of [announceFile] throws, [shareFile]
    rejects with that error and the entry it stored before announcing stays
    in the shared-files table. *)
Theorem publish_failure_keeps_shared_file
    (st : FileSharing) (file : File) (env : ShareEnv) (result : string) (err : exn) :
  let fileData :=
    {| sf_id := random_id env; sf_name := file_name file; sf_type := file_type file;
       sf_size := file_size file; sf_data := result; sf_timestamp := now_stored env |} in
  reader env = Returned result ->
  publish (pubsub env) FILE_ANNOUNCE_TOPIC
    (announcement_payload (announcement_value (self_peerId st) fileData (now_announced env)))
    = Some err ->
  snd (shareFile st file env) = Thrown err /\
  map_get (VStr (random_id env)) (sharedFiles (fst (shareFile st file env))) = Some fileData /\
  In fileData (getSharedFiles (fst (shareFile st file env))).
Proof.
  intros fileData Hreader Hpub.
  assert (Hget : map_get (VStr (random_id env)) (sharedFiles (fst (shareFile st file env)))
                 = Some fileData).
  { rewrite shareFile_state, Hreader. simpl. apply map_get_set_same, same_value_zero_str. }
  split; [|split].
  - unfold shareFile. rewrite Hreader.
    match goal with
    | |- snd (match announceFile ?s ?f ?n ?p with _ => _ end) = _ =>
        pose proof (announceFile_outcome s f n p) as Hout;
        destruct (announceFile s f n p) as [st2 [u|e]]
    end; simpl in Hout; fold fileData in Hout; rewrite Hpub in Hout;
      [discriminate | simpl; congruence].
  - exact Hget.
  - unfold getSharedFiles. eapply map_get_In. exact Hget.
Qed.

Lemma publish_failure_keeps_shared_file_witness :
  snd (shareFile (new Scenario.me) Scenario.a_txt
         (Scenario.share_env "k3x9q0z1a" 1700000000000 Scenario.failing))
    = Thrown (Error "PublishError.NoPeersSubscribedToTopic") /\
  map_get (VStr "k3x9q0z1a")
    (sharedFiles (fst (shareFile (new Scenario.me) Scenario.a_txt
                         (Scenario.share_env "k3x9q0z1a" 1700000000000 Scenario.failing))))
    = Some Scenario.a_record /\
  In Scenario.a_record
    (getSharedFiles (fst (shareFile (new Scenario.me) Scenario.a_txt
                            (Scenario.share_env "k3x9q0z1a" 1700000000000 Scenario.failing)))).
Proof.
  apply (publish_failure_keeps_shared_file (new Scenario.me) Scenario.a_txt
           (Scenario.share_env "k3x9q0z1a" 1700000000000 Scenario.failing)
           "data:text/plain;base64,aGVsbG8="
           (Error "PublishError.NoPeersSubscribedToTopic")).
  - reflexivity.
  - reflexivity.
Defined.

(** C8, as the claim states it, fails: a [shareFile] call that draws an id
    already in the table overwrites the entry stored under it.  Here the
    record of [a.txt] is listed before the second call and gone after it. *)
Lemma later_shareFile_displaces_entry :
  reachable Scenario.me Scenario.sharing_a /\
  In Scenario.a_record (getSharedFiles Scenario.sharing_a) /\
  Scenario.sharing_b_same_id =
    perform Scenario.sharing_a
      (OpShareFile Scenario.b_png
         (Scenario.share_env "k3x9q0z1a" 1700000005000 Scenario.accepting)) /\
  ~ In Scenario.a_record (getSharedFiles Scenario.sharing_b_same_id) /\
  List.map sf_name (getSharedFiles Scenario.sharing_b_same_id) = ["b.png"].
Proof.
  split; [|split; [|split; [|split]]].
  - apply (reachable_step Scenario.me (new Scenario.me)
             (OpShareFile Scenario.a_txt
                (Scenario.share_env "k3x9q0z1a" 1700000000000 Scenario.accepting))).
    apply reachable_new.
  - left. reflexivity.
  - reflexivity.
  - intros [H|[]]. discriminate H.
  - reflexivity.
Qed.

(** C8, amended.  In every state of a running instance the ids of the
    shared-files table are pairwise distinct, and an entry stays in the table,
    unchanged, across every operation except the removal of its id and a
    [shareFile] call that draws its id again. *)
Theorem shared_entry_persists
    (self : string) (st : FileSharing) (op : operation) (fileId : string) (f : SharedFile) :
  reachable self st ->
  map_get (VStr fileId) (sharedFiles st) = Some f ->
  displaces op fileId = false ->
  NoDup (List.map sf_id (getSharedFiles st)) /\
  NoDup (List.map sf_id (getSharedFiles (perform st op))) /\
  map_get (VStr fileId) (sharedFiles (perform st op)) = Some f.
Proof.
  intros Hreach Hget Hd.
  assert (Hids : forall s, reachable self s -> NoDup (List.map sf_id (getSharedFiles s))).
  { intros s Hs. destruct (reachable_invariant _ _ Hs) as [H1 H2 _ _ _].
    now apply distinct_ids. }
  split; [|split].
  - now apply Hids.
  - apply Hids. now constructor.
  - now apply perform_keeps_entry.
Qed.

Lemma shared_entry_persists_witness :
  NoDup (List.map sf_id (getSharedFiles Scenario.sharing_a)) /\
  NoDup (List.map sf_id
           (getSharedFiles
              (perform Scenario.sharing_a
                 (OpShareFile Scenario.b_png
                    (Scenario.share_env "m4n5b6v7c" 1700000005000 Scenario.accepting))))) /\
  map_get (VStr "k3x9q0z1a")
    (sharedFiles
       (perform Scenario.sharing_a
          (OpShareFile Scenario.b_png
             (Scenario.share_env "m4n5b6v7c" 1700000005000 Scenario.accepting))))
    = Some Scenario.a_record.
Proof.
  apply (shared_entry_persists Scenario.me Scenario.sharing_a
           (OpShareFile Scenario.b_png
              (Scenario.share_env "m4n5b6v7c" 1700000005000 Scenario.accepting))
           "k3x9q0z1a" Scenario.a_record).
  - apply (reachable_step Scenario.me (new Scenario.me)
             (OpShareFile Scenario.a_txt
                (Scenario.share_env "k3x9q0z1a" 1700000000000 Scenario.accepting))).
    apply reachable_new.
  - reflexivity.
  - reflexivity.
Defined.

End CatalogClaims.

(* ================================================================== *)
(** ** The transfer protocol *)

Section ProtocolFacts.
Import Js Net Core Shape.

Lemma pipe_to_sink_run (stream : Stream) (chunk : list byte) (w : list write) :
  pipe_to_sink stream chunk w =
  (match sink stream (List.length w) with
   | None => Returned tt
   | Some e => Thrown e
   end, (w ++ [attempt stream (List.length w) chunk])%list).
Proof.
  unfold pipe_to_sink, attempt. now destruct (sink stream (List.length w)).
Qed.

(** The reply of the second handler's [catch] block to the error [err]. *)
Lemma V2_catch_block (stream : Stream) (err : exn) (w : list write) :
  try_catch (pipe_to_sink stream (chunk_of (error_value (message err))))
    (fun _ => ret tt) w =
  (Returned tt, (w ++ [attempt stream (List.length w) (chunk_of (error_value (message err)))])%list).
Proof.
  unfold try_catch. rewrite pipe_to_sink_run.
  now destruct (sink stream (List.length w)).
Qed.

Lemma decode_request_cases (stream : Stream) :
  decode_request stream =
  match receive_text stream with
  | Thrown e => Thrown e
  | Returned data =>
      match Json.JSON_parse data with
      | Thrown e => Thrown e
      | Returned request =>
          match get_prop request "type" with
          | Thrown e => Thrown e
          | Returned type =>
              match get_prop request "fileId" with
              | Thrown e => Thrown e
              | Returned fileId => Returned (type, fileId)
              end
          end
      end
  end.
Proof. reflexivity. Qed.

(** The first handler, run to completion. *)
Lemma V1_handler_run (st : FileSharing) (stream : Stream) :
  run (V1.protocolHandler st stream) =
  match decode_request stream with
  | Thrown _ => (Returned tt, [])
  | Returned (type, fileId) =>
      if strict_eq_string type "request" && map_has fileId (sharedFiles st) then
        match map_get fileId (sharedFiles st) with
        | Some fileData => (Returned tt, [attempt stream 0 (chunk_of (fileData_value fileData))])
        | None => (Returned tt, [])
        end
      else (Returned tt, [])
  end.
Proof.
  rewrite decode_request_cases.
  unfold run, V1.protocolHandler, try_catch, bind, lift, ret.
  destruct (receive_text stream) as [data|e]; [|reflexivity].
  destruct (Json.JSON_parse data) as [request|e]; [|reflexivity].
  destruct (get_prop request "type") as [type|e]; [|reflexivity].
  destruct (get_prop request "fileId") as [fileId|e]; [|reflexivity].
  destruct (strict_eq_string type "request" && map_has fileId (sharedFiles st));
    [|reflexivity].
  destruct (map_get fileId (sharedFiles st)) as [fileData|]; [|reflexivity].
  rewrite pipe_to_sink_run. simpl. now destruct (sink stream 0).
Qed.

(** The second handler, run to completion: it never throws, and it answers
    every stream. *)
Lemma V2_handler_run (st : FileSharing) (stream : Stream) :
  run (V2.protocolHandler st stream) =
  match decode_request stream with
  | Thrown err => (Returned tt, [attempt stream 0 (chunk_of (error_value (message err)))])
  | Returned (type, fileId) =>
      let reply :=
        if strict_eq_string type "request" && map_has fileId (sharedFiles st) then
          match map_get fileId (sharedFiles st) with
          | Some fileData => Some (chunk_of (fileData_value fileData))
          | None => None
          end
        else Some (chunk_of (error_value "File not found or invalid request")) in
      match reply with
      | None => (Returned tt, [])
      | Some chunk =>
          match sink stream 0 with
          | None => (Returned tt, [attempt stream 0 chunk])
          | Some sendErr =>
              (Returned tt,
               [attempt stream 0 chunk;
                attempt stream 1 (chunk_of (error_value (message sendErr)))])
          end
      end
  end.
Proof.
  rewrite decode_request_cases.
  unfold run, V2.protocolHandler.
  unfold try_catch at 1. unfold bind, lift.
  destruct (receive_text stream) as [data|e]; [|now rewrite V2_catch_block].
  destruct (Json.JSON_parse data) as [request|e]; [|now rewrite V2_catch_block].
  destruct (get_prop request "type") as [type|e]; [|now rewrite V2_catch_block].
  destruct (get_prop request "fileId") as [fileId|e]; [|now rewrite V2_catch_block].
  destruct (strict_eq_string type "request" && map_has fileId (sharedFiles st)).
  - destruct (map_get fileId (sharedFiles st)) as [fileData|]; [|reflexivity].
    rewrite pipe_to_sink_run. simpl.
    destruct (sink stream 0) as [sendErr|] eqn:E; [|reflexivity].
    rewrite V2_catch_block. reflexivity.
  - rewrite pipe_to_sink_run. simpl.
    destruct (sink stream 0) as [sendErr|] eqn:E; [|reflexivity].
    rewrite V2_catch_block. reflexivity.
Qed.

Lemma V2_handler_never_throws (st : FileSharing) (stream : Stream) :
  fst (run (V2.protocolHandler st stream)) = Returned tt.
Proof.
  rewrite V2_handler_run. destruct (decode_request stream) as [[type fileId]|e]; [|reflexivity].
  cbv zeta.
  destruct (strict_eq_string type "request" && map_has fileId (sharedFiles st)).
  - destruct (map_get fileId (sharedFiles st)); [|reflexivity].
    now destruct (sink stream 0).
  - now destruct (sink stream 0).
Qed.

Lemma V1_handler_never_throws (st : FileSharing) (stream : Stream) :
  fst (run (V1.protocolHandler st stream)) = Returned tt.
Proof.
  rewrite V1_handler_run. destruct (decode_request stream) as [[type fileId]|e]; [|reflexivity].
  destruct (strict_eq_string type "request" && map_has fileId (sharedFiles st)); [|reflexivity].
  now destruct (map_get fileId (sharedFiles st)).
Qed.

Lemma map_has_get {V : Type} (k : value) (m : Map V) :
  map_has k m = true -> exists v, map_get k m = Some v.
Proof. unfold map_has. destruct (map_get k m); [eauto | discriminate]. Qed.

(** The second handler always makes at least one call of the sink. *)
Lemma V2_handler_always_answers (st : FileSharing) (stream : Stream) :
  snd (run (V2.protocolHandler st stream)) <> [].
Proof.
  rewrite V2_handler_run. destruct (decode_request stream) as [[type fileId]|e]; [|discriminate].
  cbv zeta.
  destruct (strict_eq_string type "request" && map_has fileId (sharedFiles st)) eqn:E.
  - apply andb_true_iff in E. destruct E as [_ E]. apply map_has_get in E.
    destruct E as [v ->]. now destruct (sink stream 0).
  - now destruct (sink stream 0).
Qed.

(** The second [requestFile], once the stream is open and the request is
    sent: it settles on the [error] property of the decoded response. *)
Lemma V2_requestFile_settles
    (libp2p : Libp2p) (peerId peerIdObj : string) (fileId : value)
    (stream : Stream) (response error : value) :
  peerIdFromString libp2p peerId = Returned peerIdObj ->
  dialProtocol libp2p peerIdObj FILE_SHARING_PROTOCOL = Returned (Some stream) ->
  sink stream 0 = None ->
  receive_json stream = Returned response ->
  get_prop response "error" = Returned error ->
  fst (run (V2.requestFile libp2p peerId fileId)) =
  if truthy error then
    match to_string error with
    | Returned text =>
        Thrown (Error ("Failed to request file: Peer response error: " ++ text))
    | Thrown e => Thrown (Error ("Failed to request file: " ++ message e))
    end
  else Returned response.
Proof.
  intros Hpeer Hdial Hsink Hrecv Herr.
  unfold run, V2.requestFile, try_catch, bind, lift, throw, ret.
  rewrite Hpeer, Hdial, pipe_to_sink_run. simpl. rewrite Hsink, Hrecv, Herr.
  destruct (truthy error); [|reflexivity].
  now destruct (to_string error).
Qed.

(** The first [requestFile] returns whatever it decodes. *)
Lemma V1_requestFile_settles
    (libp2p : Libp2p) (peerId : string) (fileId : value) (stream : Stream) (response : value) :
  dialProtocol libp2p peerId FILE_SHARING_PROTOCOL = Returned (Some stream) ->
  sink stream 0 = None ->
  receive_json stream = Returned response ->
  fst (run (V1.requestFile libp2p peerId fileId)) = Returned response.
Proof.
  intros Hdial Hsink Hrecv.
  unfold run, V1.requestFile, bind, lift, ret.
  rewrite Hdial, pipe_to_sink_run. simpl. now rewrite Hsink, Hrecv.
Qed.

End ProtocolFacts.

(* ================================================================== *)
(** ** Claims about the protocol handler and [requestFile] *)

Section ProtocolClaims.
Import Js Net Core Shape.

(** The first handler leaves every request it does not serve unanswered. *)
Lemma V1_handler_ignores_unserved_request
    (st : FileSharing) (stream : Stream) (type fileId : value) :
  decode_request stream = Returned (type, fileId) ->
  strict_eq_string type "request" && map_has fileId (sharedFiles st) = false ->
  run (V1.protocolHandler st stream) = (Returned tt, []).
Proof. intros Hreq Hcond. now rewrite V1_handler_run, Hreq, Hcond. Qed.

(** The second handler answers such a request with the not-found error, and
    reports a failure of that write in a second write. *)
Lemma V2_handler_reports_unserved_request
    (st : FileSharing) (stream : Stream) (type fileId : value) :
  decode_request stream = Returned (type, fileId) ->
  strict_eq_string type "request" && map_has fileId (sharedFiles st) = false ->
  run (V2.protocolHandler st stream) =
  (Returned tt,
   attempt stream 0 (chunk_of (error_value "File not found or invalid request")) ::
   match sink stream 0 with
   | None => []
   | Some sendErr => [attempt stream 1 (chunk_of (error_value (message sendErr)))]
   end).
Proof.
  intros Hreq Hcond. rewrite V2_handler_run, Hreq, Hcond. cbv zeta.
  now destruct (sink stream 0).
Qed.

(** The first handler swallows an exception raised while it decodes the
    request; the second one reports it on the stream. *)
Lemma V1_handler_swallows_exception (st : FileSharing) (stream : Stream) (err : exn) :
  decode_request stream = Thrown err ->
  run (V1.protocolHandler st stream) = (Returned tt, []).
Proof. intros Hreq. now rewrite V1_handler_run, Hreq. Qed.

Lemma V2_handler_reports_exception (st : FileSharing) (stream : Stream) (err : exn) :
  decode_request stream = Thrown err ->
  run (V2.protocolHandler st stream) =
  (Returned tt, [attempt stream 0 (chunk_of (error_value (message err)))]).
Proof. intros Hreq. now rewrite V2_handler_run, Hreq. Qed.

(** X1: the second handler makes its best effort on every stream: it returns
    normally; an exception raised before the reply is reported in the first
    write; a reply that the sink refuses is reported in a second write. *)
Lemma V2_handler_best_effort (st : FileSharing) (stream : Stream) :
  fst (run (V2.protocolHandler st stream)) = Returned tt /\
  (forall err, decode_request stream = Thrown err ->
     snd (run (V2.protocolHandler st stream))
     = [attempt stream 0 (chunk_of (error_value (message err)))]) /\
  (forall request sendErr, decode_request stream = Returned request ->
     sink stream 0 = Some sendErr ->
     List.nth_error (snd (run (V2.protocolHandler st stream))) 1
     = Some (attempt stream 1 (chunk_of (error_value (message sendErr))))).
Proof.
  split; [apply V2_handler_never_throws|]. split.
  - intros err Herr. now rewrite (V2_handler_reports_exception st stream err Herr).
  - intros [type fileId] sendErr Hreq Hsink.
    pose proof (V2_handler_always_answers st stream) as Hans.
    rewrite V2_handler_run, Hreq in *. cbv zeta in *.
    destruct (strict_eq_string type "request" && map_has fileId (sharedFiles st)).
    + destruct (map_get fileId (sharedFiles st)); [|now elim Hans].
      now rewrite Hsink.
    + now rewrite Hsink.
Qed.

(** C1, on the first definition of the handler: a well-formed request for a
    [fileId] that is not in the shared-files table is decoded, the handler
    returns, and no byte is written to the stream. *)
Theorem V1_handler_silent_on_absent_file :
  map_has (VStr "zzzzzzzzz") (sharedFiles Scenario.sharing_a) = false /\
  decode_request (Scenario.inbound (request_value (VStr "zzzzzzzzz")))
    = Returned (VStr "request", VStr "zzzzzzzzz") /\
  run (V1.protocolHandler Scenario.sharing_a
         (Scenario.inbound (request_value (VStr "zzzzzzzzz"))))
    = (Returned tt, []) /\
  delivered (snd (run (V1.protocolHandler Scenario.sharing_a
                         (Scenario.inbound (request_value (VStr "zzzzzzzzz")))))) = [].
Proof.
  assert (Hreq : decode_request (Scenario.inbound (request_value (VStr "zzzzzzzzz")))
                 = Returned (VStr "request", VStr "zzzzzzzzz")) by (vm_compute; reflexivity).
  assert (Hrun : run (V1.protocolHandler Scenario.sharing_a
                        (Scenario.inbound (request_value (VStr "zzzzzzzzz"))))
                 = (Returned tt, [])).
  { apply (V1_handler_ignores_unserved_request _ _ _ _ Hreq). reflexivity. }
  split; [reflexivity|]. split; [exact Hreq|]. split; [exact Hrun|].
  now rewrite Hrun.
Qed.

(** C6, on the first definition of the handler: a frame that is not JSON
    makes [JSON.parse] throw; the handler catches the exception, returns,
    and makes no attempt to write an error response. *)
Theorem V1_handler_silent_on_malformed_request :
  decode_request Scenario.inbound_garbage = Thrown (Error "Unexpected token in JSON") /\
  run (V1.protocolHandler Scenario.sharing_a Scenario.inbound_garbage) = (Returned tt, []).
Proof.
  assert (Hreq : decode_request Scenario.inbound_garbage
                 = Thrown (Error "Unexpected token in JSON")) by (vm_compute; reflexivity).
  split; [exact Hreq|]. exact (V1_handler_swallows_exception _ _ _ Hreq).
Qed.

(** C2: both definitions of [requestFile] return a response that carries
    an [error] field as if it were the file.  The [catch] block of the second
    handler answers an exception that has no message with [{error: ''}]; the
    second [requestFile] tests [response.error] for truthiness, so this
    response is returned to the caller.  The first [requestFile] tests
    nothing: it returns this response, and the not-found response of the
    second handler as well. *)
Theorem requestFile_returns_error_response :
  snd (run (V2.protocolHandler Scenario.sharing_a Scenario.aborted))
    = [attempt Scenario.aborted 0 (chunk_of (error_value ""))] /\
  receive_json (Scenario.inbound (error_value "")) = Returned (error_value "") /\
  get_prop (error_value "") "error" = Returned (VStr "") /\
  fst (run (V2.requestFile (Scenario.node (Scenario.inbound (error_value "")))
             Scenario.me (VStr "k3x9q0z1a")))
    = Returned (error_value "") /\
  fst (run (V1.requestFile (Scenario.node (Scenario.inbound (error_value "")))
             Scenario.me (VStr "k3x9q0z1a")))
    = Returned (error_value "") /\
  fst (run (V1.requestFile
              (Scenario.node (Scenario.inbound (error_value "File not found or invalid request")))
              Scenario.me (VStr "zzzzzzzzz")))
    = Returned (error_value "File not found or invalid request").
Proof.
  split; [|vm_compute; repeat split; reflexivity].
  rewrite (V2_handler_reports_exception Scenario.sharing_a Scenario.aborted (Error ""));
    reflexivity.
Qed.

(** C10.  Once the response is decoded, a response whose [error] property
    reads [undefined] is returned by both definitions of [requestFile] as it
    is: neither compares its [id] with the requested [fileId] nor looks at
    [name], [size] or [data]. *)
Theorem requestFile_passes_response_through
    (libp2p : Libp2p) (peerId peerIdObj : string) (fileId : value)
    (stream : Stream) (response : value) :
  sink stream 0 = None ->
  receive_json stream = Returned response ->
  get_prop response "error" = Returned VUndefined ->
  (dialProtocol libp2p peerId FILE_SHARING_PROTOCOL = Returned (Some stream) ->
   fst (run (V1.requestFile libp2p peerId fileId)) = Returned response) /\
  (peerIdFromString libp2p peerId = Returned peerIdObj ->
   dialProtocol libp2p peerIdObj FILE_SHARING_PROTOCOL = Returned (Some stream) ->
   fst (run (V2.requestFile libp2p peerId fileId)) = Returned response).
Proof.
  intros Hsink Hrecv Herr. split.
  - intros Hdial. now apply (V1_requestFile_settles _ _ _ stream).
  - intros Hpeer Hdial.
    now rewrite (V2_requestFile_settles _ _ _ _ _ _ _ Hpeer Hdial Hsink Hrecv Herr).
Qed.

Lemma requestFile_passes_response_through_witness :
  fst (run (V1.requestFile
              (Scenario.node (Scenario.inbound (VObj [("id", VStr "someOther"); ("size", VNull)])))
              Scenario.other (VStr "q7w8e9r0t")))
    = Returned (VObj [("id", VStr "someOther"); ("size", VNull)]) /\
  fst (run (V2.requestFile
              (Scenario.node (Scenario.inbound (VObj [("id", VStr "someOther"); ("size", VNull)])))
              Scenario.other (VStr "q7w8e9r0t")))
    = Returned (VObj [("id", VStr "someOther"); ("size", VNull)]).
Proof.
  pose proof (requestFile_passes_response_through
                (Scenario.node (Scenario.inbound (VObj [("id", VStr "someOther"); ("size", VNull)])))
                Scenario.other Scenario.other (VStr "q7w8e9r0t")
                (Scenario.inbound (VObj [("id", VStr "someOther"); ("size", VNull)]))
                (VObj [("id", VStr "someOther"); ("size", VNull)])) as H.
  destruct H as [H1 H2].
  - reflexivity.
  - vm_compute. reflexivity.
  - reflexivity.
  - split; [apply H1 | apply H2]; reflexivity.
Defined.

End ProtocolClaims.

(* ================================================================== *)
(** ** The codecs: decoding what was encoded *)

Section StringFacts.

Lemma string_app_assoc (a b c : string) : (a ++ b) ++ c = a ++ (b ++ c).
Proof. induction a as [|x a IH]; simpl; [reflexivity | now rewrite IH]. Qed.

Lemma string_app_nil_r (a : string) : a ++ "" = a.
Proof. induction a as [|x a IH]; simpl; [reflexivity | now rewrite IH]. Qed.

Lemma string_length_app (a b : string) :
  String.length (a ++ b) = String.length a + String.length b.
Proof. induction a as [|x a IH]; simpl; [reflexivity | now rewrite IH]. Qed.

End StringFacts.

Section JsonFacts.
Import Js Json Shape.

(** *** String literals *)

Lemma parse_chars_escape_char (c : ascii) (rest : string) :
  parse_chars (escape_char c ++ rest) = prepend (String c "") (parse_chars rest).
Proof.
  destruct c as [[] [] [] [] [] [] [] []]; reflexivity.
Qed.

Lemma parse_chars_escape (s rest : string) :
  parse_chars (escape s ++ String dquote rest) = Some (s, rest).
Proof.
  induction s as [|c s IH]; simpl; [reflexivity|].
  rewrite string_app_assoc, parse_chars_escape_char, IH. reflexivity.
Qed.

Lemma quote_app (s rest : string) :
  quote s ++ rest = String dquote (escape s ++ String dquote rest).
Proof. unfold quote. simpl. now rewrite string_app_assoc. Qed.

Lemma quote_length (s : string) : 2 <= String.length (quote s).
Proof. unfold quote. simpl. rewrite string_length_app. simpl. lia. Qed.

(** *** Numbers *)

Lemma delimiter_inv (rest : string) :
  delimiter rest = true ->
  rest = "" \/ exists r, rest = String "," r \/ rest = String "]" r \/ rest = String "}" r.
Proof.
  destruct rest as [|c r]; simpl; [now left|]. intros H. right. exists r.
  apply orb_true_iff in H. destruct H as [H|H].
  - apply orb_true_iff in H. destruct H as [H|H]; apply Ascii.eqb_eq in H; subst; auto.
  - apply Ascii.eqb_eq in H; subst; auto.
Qed.

Lemma read_digits_stop (rest : string) :
  delimiter rest = true -> read_digits rest = (Nil, rest).
Proof.
  intros H. destruct (delimiter_inv _ H) as [->|[r [->|[->| ->]]]]; reflexivity.
Qed.

Lemma starts_fraction_delimiter (rest : string) :
  delimiter rest = true -> starts_fraction rest = false.
Proof.
  intros H. destruct (delimiter_inv _ H) as [->|[r [->|[->| ->]]]]; reflexivity.
Qed.

Lemma read_digits_print (d : uint) (rest : string) :
  delimiter rest = true ->
  read_digits (NilEmpty.string_of_uint d ++ rest) = (d, rest).
Proof.
  intros H. induction d; simpl; try (rewrite IHd; reflexivity).
  now apply read_digits_stop.
Qed.

Lemma canonical_to_uint (p : positive) : canonical (Pos.to_uint p) = true.
Proof.
  assert (Hnorm : unorm (Pos.to_uint p) = Pos.to_uint p).
  { rewrite <- (DecimalPos.Unsigned.to_of (Pos.to_uint p)).
    now rewrite DecimalPos.Unsigned.of_to. }
  pose proof (DecimalPos.Unsigned.to_uint_nonzero p) as Hnz.
  destruct (Pos.to_uint p) as [|u|u|u|u|u|u|u|u|u|u] eqn:E; try reflexivity.
  - discriminate Hnorm.
  - rewrite unorm_D0 in Hnorm. unfold unorm in Hnorm.
    destruct (nzhead u) eqn:En; try (exfalso; eapply nzhead_nonzero; rewrite En, Hnorm; reflexivity).
    injection Hnorm as <-. now elim Hnz.
Qed.

Lemma string_of_uint_nonnil (d : uint) :
  d <> Nil -> NilZero.string_of_uint d = NilEmpty.string_of_uint d.
Proof. destruct d; [congruence | reflexivity ..]. Qed.

Lemma canonical_nonnil (d : uint) : canonical d = true -> d <> Nil.
Proof. destruct d; [discriminate | congruence ..]. Qed.

Lemma canonical_to_int (n : Z) :
  match Z.to_int n with
  | Pos d => canonical d = true
  | Neg d => canonical d = true
  end.
Proof.
  destruct n; simpl; [reflexivity | apply canonical_to_uint ..].
Qed.

Lemma number_start_dispatch (c : ascii) (r : string) (f : nat) :
  number_start c = true ->
  parse_value (S f) (String c r) = parse_number (String c r).
Proof.
  destruct c as [[] [] [] [] [] [] [] []]; simpl; intros H;
    try discriminate H; reflexivity.
Qed.

Lemma value_start_not_ws (c : ascii) (r : string) :
  value_start c = true -> skip_ws (String c r) = String c r.
Proof.
  destruct c as [[] [] [] [] [] [] [] []]; simpl; intros H;
    try discriminate H; reflexivity.
Qed.

Lemma value_start_not_closing (c : ascii) :
  value_start c = true -> (c =? "]")%char = false /\ (c =? "}")%char = false.
Proof.
  destruct c as [[] [] [] [] [] [] [] []]; simpl; intros H;
    try discriminate H; split; reflexivity.
Qed.

Lemma string_of_uint_head (d : uint) :
  d <> Nil ->
  exists c r, NilEmpty.string_of_uint d = String c r /\ number_start c = true
              /\ (c =? "-")%char = false.
Proof.
  destruct d; [congruence | ..]; intros _; simpl; eexists; eexists; repeat split.
Qed.

Lemma string_of_Z_head (n : Z) :
  exists c r, string_of_Z n = String c r /\ number_start c = true.
Proof.
  unfold string_of_Z. pose proof (canonical_to_int n) as Hc.
  destruct (Z.to_int n) as [d|d]; simpl.
  - rewrite string_of_uint_nonnil by now apply canonical_nonnil.
    destruct (string_of_uint_head d (canonical_nonnil _ Hc)) as [c [r [E [H _]]]].
    eauto.
  - eexists; eexists; split; reflexivity.
Qed.

Lemma parse_number_print (n : Z) (rest : string) :
  delimiter rest = true ->
  parse_number (string_of_Z n ++ rest) = Some (VNum n, rest).
Proof.
  intros Hrest. unfold string_of_Z.
  pose proof (canonical_to_int n) as Hc. pose proof (DecimalZ.of_to n) as Hn.
  destruct (Z.to_int n) as [d|d]; simpl.
  - rewrite string_of_uint_nonnil by now apply canonical_nonnil.
    destruct (string_of_uint_head d (canonical_nonnil _ Hc)) as [c [r [E [_ Hminus]]]].
    unfold parse_number.
    assert (Hsplit : NilEmpty.string_of_uint d ++ rest = String c (r ++ rest))
      by now rewrite E.
    rewrite Hsplit, Hminus, <- Hsplit.
    rewrite read_digits_print by assumption.
    rewrite Hc, starts_fraction_delimiter by assumption. cbn [andb negb]. now rewrite Hn.
  - rewrite string_of_uint_nonnil by now apply canonical_nonnil.
    unfold parse_number. cbn -[Z.of_int read_digits canonical starts_fraction].
    rewrite read_digits_print by assumption.
    rewrite Hc, starts_fraction_delimiter by assumption. cbn [andb negb]. now rewrite Hn.
Qed.

End JsonFacts.

Section JsonRoundTrip.
Import Js Json Shape.

Lemma value_induction (P : value -> Prop) :
  P VUndefined -> P VNull -> (forall b, P (VBool b)) -> (forall n, P (VNum n)) ->
  (forall s, P (VStr s)) ->
  (forall items, Forall P items -> P (VArr items)) ->
  (forall fields, Forall (fun kv => P (snd kv)) fields -> P (VObj fields)) ->
  forall v, P v.
Proof.
  intros Hu Hn Hb Hz Hs Ha Ho.
  refine (fix F (v : value) : P v :=
            match v with
            | VUndefined => Hu
            | VNull => Hn
            | VBool b => Hb b
            | VNum n => Hz n
            | VStr s => Hs s
            | VArr items =>
                Ha items
                  ((fix G (l : list value) : Forall P l :=
                      match l with
                      | [] => Forall_nil _
                      | x :: r => Forall_cons x (F x) (G r)
                      end) items)
            | VObj fields =>
                Ho fields
                  ((fix G (l : list (string * value)) : Forall (fun kv => P (snd kv)) l :=
                      match l with
                      | [] => Forall_nil _
                      | (k, x) :: r => Forall_cons (k, x) (F x) (G r)
                      end) fields)
            end).
Qed.

Lemma stringify_array (items : list value) :
  stringify (VArr items) = String "[" (stringify_elements items true ++ "]").
Proof.
  assert (H : forall l first,
             (fix elements (l : list value) (first : bool) : string :=
                match l with
                | [] => ""
                | x :: r => sep first ++ stringify x ++ elements r false
                end) l first = stringify_elements l first).
  { induction l as [|x r IH]; intros first; simpl; [reflexivity | now rewrite IH]. }
  simpl. now rewrite H.
Qed.

Lemma stringify_object (fields : list (string * value)) :
  stringify (VObj fields) = String "{" (stringify_members fields true ++ "}").
Proof.
  assert (H : forall l first,
             (fix members (l : list (string * value)) (first : bool) : string :=
                match l with
                | [] => ""
                | (k, x) :: r =>
                    if is_undefined x then members r first
                    else sep first ++ quote k ++ ":" ++ stringify x ++ members r false
                end) l first = stringify_members l first).
  { induction l as [|[k x] r IH]; intros first; simpl; [reflexivity|].
    rewrite !IH. reflexivity. }
  simpl. now rewrite H.
Qed.

Lemma number_start_value_start (c : ascii) :
  number_start c = true -> value_start c = true.
Proof.
  destruct c as [[] [] [] [] [] [] [] []]; simpl; intros H;
    try discriminate H; reflexivity.
Qed.

Lemma stringify_head (v : value) :
  exists c r, stringify v = String c r /\ value_start c = true.
Proof.
  destruct v as [ | | [|] | n | s | items | fields ].
  - exists "n"%char, "ull". split; reflexivity.
  - exists "n"%char, "ull". split; reflexivity.
  - exists "t"%char, "rue". split; reflexivity.
  - exists "f"%char, "alse". split; reflexivity.
  - destruct (string_of_Z_head n) as [c [r [E H]]]. exists c, r.
    split; [exact E | now apply number_start_value_start].
  - eexists; eexists; split; reflexivity.
  - rewrite stringify_array. eexists; eexists; split; reflexivity.
  - rewrite stringify_object. eexists; eexists; split; reflexivity.
Qed.

Lemma stringify_length (v : value) : 1 <= String.length (stringify v).
Proof.
  destruct (stringify_head v) as [c [r [E _]]]. rewrite E. simpl. lia.
Qed.

(** **** One step of the parser on the shapes [stringify] prints *)

Lemma parse_value_string (f : nat) (s rest : string) :
  parse_value (S f) (quote s ++ rest) = Some (VStr s, rest).
Proof.
  rewrite quote_app. simpl. now rewrite parse_chars_escape.
Qed.

Lemma parse_value_bracket (f : nat) (r : string) :
  parse_value (S f) (String "[" r) =
  match skip_ws r with
  | "" => None
  | String c' r' =>
      if (c' =? "]")%char then Some (VArr [], r')
      else with_rest VArr (parse_elements f r)
  end.
Proof. reflexivity. Qed.

Lemma parse_value_array (f : nat) (c : ascii) (r : string) :
  value_start c = true ->
  parse_value (S f) (String "[" (String c r)) = with_rest VArr (parse_elements f (String c r)).
Proof.
  intros H. destruct (value_start_not_closing c H) as [H1 _].
  rewrite parse_value_bracket, (value_start_not_ws c r H), H1. reflexivity.
Qed.

Lemma parse_value_object (f : nat) (r : string) :
  parse_value (S f) (String "{" (String dquote r))
  = with_rest VObj (parse_members f (String dquote r)).
Proof. reflexivity. Qed.

Lemma parse_elements_last (f : nat) (s rest : string) (v : value) :
  parse_value f s = Some (v, String "]" rest) ->
  parse_elements (S f) s = Some ([v], rest).
Proof. intros H. simpl. now rewrite H. Qed.

Lemma parse_elements_more (f : nat) (s r : string) (v : value) :
  parse_value f s = Some (v, String "," r) ->
  parse_elements (S f) s = with_rest (cons v) (parse_elements f r).
Proof. intros H. simpl. now rewrite H. Qed.

Lemma parse_members_last (f : nat) (k s rest : string) (v : value) :
  parse_value f s = Some (v, String "}" rest) ->
  parse_members (S f) (quote k ++ String ":" s) = Some ([(k, v)], rest).
Proof.
  intros H. rewrite quote_app. simpl. rewrite parse_chars_escape. simpl. now rewrite H.
Qed.

Lemma parse_members_more (f : nat) (k s r : string) (v : value) :
  parse_value f s = Some (v, String "," r) ->
  parse_members (S f) (quote k ++ String ":" s)
  = with_rest (cons (k, v)) (parse_members f r).
Proof.
  intros H. rewrite quote_app. simpl. rewrite parse_chars_escape. simpl. now rewrite H.
Qed.

(** **** Arrays and objects, given their parts *)

Lemma elements_tail (l : list value) :
  l <> [] -> stringify_elements l false = String "," (stringify_elements l true).
Proof. destruct l; [congruence | reflexivity]. Qed.

Lemma no_undefined_defined (x : value) : no_undefined x = true -> is_undefined x = false.
Proof. destruct x; simpl; congruence. Qed.

Lemma members_cons (k : string) (x : value) (r : list (string * value)) :
  no_undefined x = true ->
  stringify_members ((k, x) :: r) true
  = quote k ++ String ":" (stringify x ++ stringify_members r false).
Proof. intros H. simpl. now rewrite (no_undefined_defined x H). Qed.

Lemma members_tail (l : list (string * value)) :
  forallb (fun kv => no_undefined (snd kv)) l = true ->
  l <> [] -> stringify_members l false = String "," (stringify_members l true).
Proof.
  destruct l as [|[k x] r]; [congruence|]. simpl. intros H _.
  apply andb_true_iff in H. destruct H as [H _].
  now rewrite (no_undefined_defined x H).
Qed.

Lemma parse_elements_print (items : list value) :
  Forall reads_back items ->
  forallb no_undefined items = true ->
  items <> [] ->
  forall (fuel : nat) (rest : string),
    String.length (stringify_elements items true) + 1 <= fuel ->
    parse_elements fuel (stringify_elements items true ++ String "]" rest)
    = Some (items, rest).
Proof.
  induction items as [|x r IH]; [congruence|].
  intros HQ Hnu _ fuel rest Hfuel.
  inversion HQ as [|? ? Hx Hr]; subst. simpl in Hnu.
  apply andb_true_iff in Hnu. destruct Hnu as [Hnx Hnr].
  simpl stringify_elements in *. rewrite string_length_app in Hfuel.
  pose proof (stringify_length x) as Hlen.
  destruct fuel as [|f]; [lia|].
  rewrite string_app_assoc.
  destruct r as [|y r'].
  - simpl stringify_elements in *. simpl append at 2.
    apply parse_elements_last. apply Hx; [assumption | lia | reflexivity].
  - rewrite elements_tail in * by discriminate.
    change (String.length (String "," (stringify_elements (y :: r') true)))
      with (S (String.length (stringify_elements (y :: r') true))) in Hfuel.
    change (String "," (stringify_elements (y :: r') true) ++ String "]" rest)
      with (String "," (stringify_elements (y :: r') true ++ String "]" rest)).
    erewrite parse_elements_more.
    2:{ apply Hx; [assumption | lia | reflexivity]. }
    rewrite IH; [reflexivity | assumption | assumption | discriminate | lia].
Qed.

Lemma parse_members_print (fields : list (string * value)) :
  Forall (fun kv => reads_back (snd kv)) fields ->
  forallb (fun kv => no_undefined (snd kv)) fields = true ->
  fields <> [] ->
  forall (fuel : nat) (rest : string),
    String.length (stringify_members fields true) + 1 <= fuel ->
    parse_members fuel (stringify_members fields true ++ String "}" rest)
    = Some (fields, rest).
Proof.
  induction fields as [|[k x] r IH]; [congruence|].
  intros HQ Hnu _ fuel rest Hfuel.
  inversion HQ as [|? ? Hx Hr]; subst. simpl in Hx. simpl in Hnu.
  apply andb_true_iff in Hnu. destruct Hnu as [Hnx Hnr].
  rewrite members_cons in * by assumption.
  rewrite string_length_app in Hfuel. cbn [String.length] in Hfuel.
  rewrite string_length_app in Hfuel.
  pose proof (stringify_length x) as Hlen. pose proof (quote_length k) as Hq.
  destruct fuel as [|f]; [lia|].
  rewrite string_app_assoc. cbn [append]. rewrite string_app_assoc.
  destruct r as [|[k' y] r'].
  - cbn [stringify_members append] in *.
    apply parse_members_last. apply Hx; [assumption | lia | reflexivity].
  - rewrite members_tail in * by (assumption || discriminate).
    change (String.length (String "," (stringify_members ((k', y) :: r') true)))
      with (S (String.length (stringify_members ((k', y) :: r') true))) in Hfuel.
    change (String "," (stringify_members ((k', y) :: r') true) ++ String "}" rest)
      with (String "," (stringify_members ((k', y) :: r') true ++ String "}" rest)).
    erewrite parse_members_more.
    2:{ apply Hx; [assumption | lia | reflexivity]. }
    rewrite IH; [reflexivity | assumption | assumption | discriminate | lia].
Qed.

(** **** Every value free of [undefined] is read back *)

Lemma stringify_reads_back (v : value) : reads_back v.
Proof.
  induction v as [ | | b | n | s | items IH | fields IH ] using value_induction;
    intros Hnu fuel rest Hfuel Hrest.
  - discriminate Hnu.
  - destruct fuel as [|f]; [simpl in Hfuel; lia | reflexivity].
  - destruct fuel as [|f]; [destruct b; simpl in Hfuel; lia | destruct b; reflexivity].
  - destruct fuel as [|f]; [pose proof (stringify_length (VNum n)); lia|].
    simpl stringify. destruct (string_of_Z_head n) as [c [r [E H]]].
    assert (Hsplit : string_of_Z n ++ rest = String c (r ++ rest)) by now rewrite E.
    rewrite Hsplit, (number_start_dispatch c _ f H), <- Hsplit.
    now apply parse_number_print.
  - destruct fuel as [|f]; [pose proof (stringify_length (VStr s)); lia|].
    apply parse_value_string.
  - rewrite stringify_array in *. simpl String.length in Hfuel.
    rewrite string_length_app in Hfuel. simpl String.length in Hfuel.
    destruct fuel as [|f]; [lia|].
    change (String "[" (stringify_elements items true ++ "]") ++ rest)
      with (String "[" ((stringify_elements items true ++ "]") ++ rest)).
    rewrite string_app_assoc. simpl append at 2.
    destruct items as [|x r]; [reflexivity|].
    destruct (stringify_head x) as [c [t [E H]]].
    assert (Hsplit : stringify_elements (x :: r) true ++ String "]" rest
                     = String c ((t ++ stringify_elements r false) ++ String "]" rest)).
    { simpl. now rewrite E. }
    rewrite Hsplit, (parse_value_array f c _ H), <- Hsplit.
    rewrite parse_elements_print; [reflexivity | assumption | exact Hnu | discriminate | lia].
  - rewrite stringify_object in *. simpl String.length in Hfuel.
    rewrite string_length_app in Hfuel. simpl String.length in Hfuel.
    destruct fuel as [|f]; [lia|].
    change (String "{" (stringify_members fields true ++ "}") ++ rest)
      with (String "{" ((stringify_members fields true ++ "}") ++ rest)).
    rewrite string_app_assoc. simpl append at 2.
    destruct fields as [|[k x] r]; [reflexivity|].
    assert (Hnx : no_undefined x = true).
    { simpl in Hnu. now apply andb_true_iff in Hnu. }
    assert (Hsplit : stringify_members ((k, x) :: r) true ++ String "}" rest
                     = String dquote
                         (escape k ++ String dquote
                            (String ":" (stringify x ++ stringify_members r false)
                             ++ String "}" rest))).
    { rewrite members_cons by assumption. rewrite string_app_assoc, quote_app.
      reflexivity. }
    rewrite Hsplit, parse_value_object, <- Hsplit.
    rewrite parse_members_print; [reflexivity | assumption | exact Hnu | discriminate | lia].
Qed.

(** [JSON.parse(JSON.stringify(v))] is [v]. *)
Lemma JSON_parse_stringify (v : value) :
  no_undefined v = true -> JSON_parse (JSON_stringify v) = Returned v.
Proof.
  intros Hnu. unfold JSON_parse, JSON_stringify.
  pose proof (stringify_reads_back v Hnu (S (String.length (stringify v))) "") as H.
  rewrite string_app_nil_r in H. rewrite H; [reflexivity | lia | reflexivity].
Qed.

End JsonRoundTrip.
Section FramingFacts.
Import Lp Shape.

Lemma byte_to_of_N (x : N) : (x < 256)%N -> Byte.to_N (byte_of_N x) = x.
Proof.
  intros Hx. unfold byte_of_N. apply Byte.to_of_N.
  rewrite byte_of_ascii_via_N. now rewrite N_ascii_embedding.
Qed.

Lemma varint_fuel_step (f : nat) (n : N) :
  varint_fuel (S f) n =
  if (n <? 128)%N then [byte_of_N n]
  else byte_of_N (n mod 128 + 128) :: varint_fuel f (n / 128).
Proof. reflexivity. Qed.

Lemma varint_decode_last (k : nat) (x : N) (rest : list byte) :
  (x < 128)%N -> varint_decode (S k) (byte_of_N x :: rest) = Some (x, rest).
Proof.
  intros Hx. cbn [varint_decode]. rewrite byte_to_of_N by lia.
  apply N.ltb_lt in Hx. now rewrite Hx.
Qed.

Lemma varint_decode_more (k : nat) (x hi : N) (bs rest : list byte) :
  (x < 128)%N ->
  varint_decode k bs = Some (hi, rest) ->
  varint_decode (S k) (byte_of_N (x + 128) :: bs) = Some (x + 128 * hi, rest)%N.
Proof.
  intros Hx Hbs. cbn [varint_decode]. rewrite byte_to_of_N by lia.
  assert (Hge : (x + 128 <? 128)%N = false) by (apply N.ltb_ge; lia).
  rewrite Hge, Hbs. f_equal. f_equal. lia.
Qed.

(** A varint of a number below [128^(k+1)] is read back from [k+1] bytes. *)
Lemma varint_fuel_decode (k : nat) :
  forall (f : nat) (n : N) (rest : list byte),
    (n < 128 ^ N.of_nat (S k))%N ->
    (n < 128 ^ N.of_nat (S f))%N ->
    varint_decode (S k) (varint_fuel (S f) n ++ rest)%list = Some (n, rest).
Proof.
  induction k as [|k IH]; intros f n rest Hk Hf; rewrite varint_fuel_step.
  - change (128 ^ N.of_nat 1)%N with 128%N in Hk.
    pose proof Hk as Hlt. apply N.ltb_lt in Hlt. rewrite Hlt.
    now apply varint_decode_last.
  - destruct (n <? 128)%N eqn:E.
    + apply N.ltb_lt in E. now apply varint_decode_last.
    + apply N.ltb_ge in E.
      destruct f as [|f].
      { change (128 ^ N.of_nat 1)%N with 128%N in Hf. lia. }
      assert (Hmod : (n mod 128 < 128)%N) by (apply N.mod_lt; lia).
      rewrite <- List.app_comm_cons.
      rewrite (varint_decode_more (S k) (n mod 128) (n / 128) _ rest Hmod).
      * f_equal. f_equal. pose proof (N.div_mod n 128). lia.
      * apply IH; apply N.Div0.div_lt_upper_bound.
        -- rewrite Nat2N.inj_succ, N.pow_succ_r' in Hk. exact Hk.
        -- rewrite Nat2N.inj_succ, N.pow_succ_r' in Hf. exact Hf.
Qed.

Lemma varint_roundtrip (n : N) (rest : list byte) :
  (n < 128 ^ 8)%N ->
  varint_decode MAX_LENGTH_LENGTH (varint_encode n ++ rest)%list = Some (n, rest).
Proof.
  intros Hn. unfold varint_encode, MAX_LENGTH_LENGTH. apply varint_fuel_decode.
  - exact Hn.
  - rewrite Nat2N.inj_succ, N2Nat.id.
    destruct n as [|p]; [reflexivity|].
    pose proof (N.log2_spec (N.pos p) eq_refl) as [_ Hlt].
    eapply N.lt_le_trans; [exact Hlt|].
    apply N.pow_le_mono_l. lia.
Qed.

Lemma varint_encode_cons (n : N) : exists b t, varint_encode n = b :: t.
Proof.
  unfold varint_encode. rewrite varint_fuel_step. destruct (n <? 128)%N; eauto.
Qed.

Lemma decode_frames_nil (fuel : nat) : decode_frames fuel [] = Returned [].
Proof. now destruct fuel. Qed.

(** The first round of [decode] on one framed chunk. *)
Lemma decode_encode_round (chunk : list byte) :
  (N.of_nat (List.length chunk) < 128 ^ 8)%N ->
  decode (encode [chunk]) =
  if (MAX_DATA_LENGTH <? N.of_nat (List.length chunk))%N then
    Thrown (Error "message data too long")
  else Returned [chunk].
Proof.
  intros Hlen. unfold decode, encode. cbn [List.map List.concat]. rewrite List.app_nil_r.
  destruct (varint_encode_cons (N.of_nat (List.length chunk))) as [b [t E]].
  assert (Hshape : (varint_encode (N.of_nat (List.length chunk)) ++ chunk
                    = b :: (t ++ chunk))%list) by now rewrite E.
  rewrite Hshape. cbn [List.length decode_frames]. rewrite <- Hshape.
  rewrite (varint_roundtrip _ _ Hlen).
  destruct (MAX_DATA_LENGTH <? N.of_nat (List.length chunk))%N; [reflexivity|].
  rewrite N.ltb_irrefl, Nat2N.id.
  rewrite skipn_all, firstn_all, decode_frames_nil. reflexivity.
Qed.

(** A stream that carries one framed message of at most
    [MAX_DATA_LENGTH] bytes decodes to that message. *)
Lemma decode_encode (chunk : list byte) :
  fits chunk = true -> decode (encode [chunk]) = Returned [chunk].
Proof.
  unfold fits. intros Hfits. apply N.leb_le in Hfits.
  rewrite decode_encode_round.
  - assert (H : (MAX_DATA_LENGTH <? N.of_nat (List.length chunk))%N = false)
      by (apply N.ltb_ge; exact Hfits).
    now rewrite H.
  - eapply N.le_lt_trans; [exact Hfits | reflexivity].
Qed.

(** A longer message is refused as soon as its length is read. *)
Lemma decode_encode_too_long (chunk : list byte) :
  fits chunk = false ->
  (N.of_nat (List.length chunk) < 128 ^ 8)%N ->
  decode (encode [chunk]) = Thrown (Error "message data too long").
Proof.
  unfold fits. intros Hfits Hlen. apply N.leb_gt in Hfits.
  rewrite (decode_encode_round _ Hlen).
  apply N.ltb_lt in Hfits. now rewrite Hfits.
Qed.

End FramingFacts.

Section WireFacts.
Import Js Json Net Core Shape.

(** *** Lengths *)

Lemma length_list_byte_of_string (s : string) :
  List.length (list_byte_of_string s) = String.length s.
Proof.
  unfold list_byte_of_string. rewrite List.length_map.
  induction s as [|c s IH]; simpl; [reflexivity | now rewrite IH].
Qed.

Lemma length_chunk_of (v : value) :
  List.length (chunk_of v) = String.length (stringify v).
Proof. apply length_list_byte_of_string. Qed.

Lemma stringify_fileData_length (f : SharedFile) :
  String.length (stringify (fileData_value f))
  = 60 + String.length (escape (sf_id f)) + String.length (escape (sf_name f))
    + String.length (escape (sf_type f)) + String.length (string_of_Z (sf_size f))
    + String.length (escape (sf_data f)) + String.length (string_of_Z (sf_timestamp f)).
Proof.
  unfold fileData_value. cbn -[string_of_Z escape].
  change (escape "id") with "id". change (escape "name") with "name".
  change (escape "type") with "type". change (escape "size") with "size".
  change (escape "data") with "data". change (escape "timestamp") with "timestamp".
  repeat (rewrite string_length_app || cbn [String.length]).
  lia.
Qed.

Lemma stringify_request_length (fileId : string) :
  String.length (stringify (request_value (VStr fileId)))
  = 30 + String.length (escape fileId).
Proof.
  unfold request_value. cbn -[escape].
  change (escape "type") with "type". change (escape "request") with "request".
  change (escape "fileId") with "fileId".
  repeat (rewrite string_length_app || cbn [String.length]).
  lia.
Qed.

(** The request for a file is shorter than the file's record: when the
    record passes the framing codec, so does the request. *)
Lemma request_fits (f : SharedFile) :
  fits (chunk_of (fileData_value f)) = true ->
  fits (chunk_of (request_value (VStr (sf_id f)))) = true.
Proof.
  unfold fits. rewrite !length_chunk_of, stringify_fileData_length, stringify_request_length.
  intros H. apply N.leb_le in H. apply N.leb_le. lia.
Qed.

(** *** One message, sent and received *)

(** What one side frames and sends is what the other side's pipe yields. *)
Lemma receive_text_chunk (chunk : list byte) (s : nat -> option exn) :
  fits chunk = true ->
  receive_text {| source := Returned (Lp.encode [chunk]); sink := s |}
  = Returned (string_of_list_byte chunk).
Proof.
  intros Hfits. unfold receive_text. simpl. now rewrite decode_encode.
Qed.

Lemma receive_json_chunk (v : value) (s : nat -> option exn) :
  no_undefined v = true ->
  fits (chunk_of v) = true ->
  receive_json {| source := Returned (Lp.encode [chunk_of v]); sink := s |} = Returned v.
Proof.
  intros Hnu Hfits. unfold receive_json. rewrite receive_text_chunk by assumption. simpl.
  unfold chunk_of, Utf8.uint8ArrayFromString.
  rewrite string_of_list_byte_of_string. now apply JSON_parse_stringify.
Qed.

(** The handler reads the request that [requestFile] frames. *)
Lemma decode_request_chunk (fileId : string) (s : nat -> option exn) :
  fits (chunk_of (request_value (VStr fileId))) = true ->
  decode_request {| source := Returned (Lp.encode [chunk_of (request_value (VStr fileId))]);
                    sink := s |}
  = Returned (VStr "request", VStr fileId).
Proof.
  intros Hfits. unfold decode_request.
  rewrite receive_text_chunk by assumption. cbn [obind].
  unfold chunk_of, Utf8.uint8ArrayFromString.
  rewrite string_of_list_byte_of_string, JSON_parse_stringify by reflexivity.
  reflexivity.
Qed.

(** A message longer than the maximum is refused by the receiving pipe. *)
Lemma receive_json_too_long (v : value) (s : nat -> option exn) :
  fits (chunk_of v) = false ->
  (N.of_nat (List.length (chunk_of v)) < 128 ^ 8)%N ->
  receive_json {| source := Returned (Lp.encode [chunk_of v]); sink := s |}
  = Thrown (Error "message data too long").
Proof.
  intros Hfits Hlen. unfold receive_json, receive_text. cbn [source obind].
  now rewrite decode_encode_too_long.
Qed.

Lemma escape_app (a b : string) : escape (a ++ b) = escape a ++ escape b.
Proof.
  induction a as [|c a IH]; simpl; [reflexivity|]. now rewrite IH, string_app_assoc.
Qed.

Lemma escape_base64_padding (n : nat) :
  String.length (escape (string_of_list_ascii (List.repeat "A"%char n))) = n.
Proof. induction n as [|n IH]; simpl; [reflexivity | now rewrite IH]. Qed.

(** The record of the 3 MiB file takes 4194461 bytes on the wire. *)
Lemma big_record_length :
  N.of_nat (List.length (chunk_of (fileData_value Scenario.big_record))) = 4194461%N.
Proof.
  rewrite length_chunk_of, stringify_fileData_length.
  unfold Scenario.big_record.
  cbn [sf_id sf_name sf_type sf_size sf_data sf_timestamp].
  rewrite escape_app, string_length_app, escape_base64_padding.
  set (n := N.to_nat 4194304).
  assert (Hn : N.of_nat n = 4194304%N) by apply N2Nat.id.
  clearbody n. rewrite !Nat2N.inj_add, Hn.
  vm_compute. reflexivity.
Qed.

(** C9, as the claim states it, fails on the stream path: the record of a
    3 MiB file, whose data URL holds 4 MiB of base64 text, is longer than the
    4 MiB that the receiving [lp.decode()] accepts, and the pipe of
    [requestFile] fails where the claim has it yield the record. *)
Lemma oversized_record_does_not_round_trip :
  receive_json (Scenario.inbound (fileData_value Scenario.big_record))
  = Thrown (Error "message data too long").
Proof.
  unfold Scenario.inbound, Scenario.stream_carrying.
  apply receive_json_too_long.
  - unfold fits. rewrite big_record_length. reflexivity.
  - rewrite big_record_length. reflexivity.
Qed.

(** C9, amended.  Every message the program puts on the wire is decoded,
    by the code that receives it, to a value equal to the one that was
    encoded, provided a message on the stream path is at most 4 MiB long: the
    announcement published by [announceFile] and parsed by the pub/sub
    listener ([JSON.stringify] and [TextEncoder], then [TextDecoder] and
    [JSON.parse]); the request of [requestFile], the file record and the
    error object of the protocol handler ([JSON.stringify],
    [uint8ArrayFromString] and [lp.encode], then [lp.decode],
    [uint8ArrayToString] and [JSON.parse]). *)
Theorem wire_messages_round_trip
    (self : string) (fileData : SharedFile) (now : Z) (fileId msg : string)
    (s : nat -> option exn) :
  Json.JSON_parse
    (Utf8.TextDecoder_decode (announcement_payload (announcement_value self fileData now)))
    = Returned (announcement_value self fileData now) /\
  (fits (chunk_of (request_value (VStr fileId))) = true ->
   receive_json {| source := Returned (Lp.encode [chunk_of (request_value (VStr fileId))]);
                   sink := s |}
     = Returned (request_value (VStr fileId))) /\
  (fits (chunk_of (fileData_value fileData)) = true ->
   receive_json {| source := Returned (Lp.encode [chunk_of (fileData_value fileData)]);
                   sink := s |}
     = Returned (fileData_value fileData)) /\
  (fits (chunk_of (error_value msg)) = true ->
   receive_json {| source := Returned (Lp.encode [chunk_of (error_value msg)]); sink := s |}
     = Returned (error_value msg)).
Proof.
  split; [|split; [|split]].
  - unfold announcement_payload, Utf8.TextDecoder_decode, Utf8.TextEncoder_encode.
    rewrite string_of_list_byte_of_string. now apply JSON_parse_stringify.
  - intros Hfits. now apply receive_json_chunk.
  - intros Hfits. now apply receive_json_chunk.
  - intros Hfits. now apply receive_json_chunk.
Qed.

Lemma wire_messages_round_trip_witness :
  receive_json (Scenario.inbound (request_value (VStr "k3x9q0z1a")))
    = Returned (request_value (VStr "k3x9q0z1a")) /\
  receive_json (Scenario.inbound (fileData_value Scenario.a_record))
    = Returned (fileData_value Scenario.a_record) /\
  receive_json (Scenario.inbound (error_value "File not found or invalid request"))
    = Returned (error_value "File not found or invalid request").
Proof.
  pose proof (wire_messages_round_trip Scenario.me Scenario.a_record 1700000000001
                "k3x9q0z1a" "File not found or invalid request" (fun _ => None))
    as [_ [Hrequest [Hrecord Herror]]].
  split; [apply Hrequest; reflexivity|].
  split; [apply Hrecord; reflexivity | apply Herror; reflexivity].
Defined.

(** X2: the listener stores an announcement of another peer exactly as
    [announceFile] built it there. *)
Lemma published_announcement_is_stored
    (st : FileSharing) (peer : string) (fileData : SharedFile) (now : Z) :
  peer <> self_peerId st ->
  exists st',
    onPubsubMessage st FILE_ANNOUNCE_TOPIC
      (announcement_payload (announcement_value peer fileData now)) = (st', true) /\
    map_get (VStr (sf_id fileData)) (availableFiles st')
    = Some {| fi_peerId := VStr peer; fi_fileId := VStr (sf_id fileData);
              fi_fileName := VStr (sf_name fileData);
              fi_fileSize := VNum (sf_size fileData); fi_timestamp := VNum now |}.
Proof.
  intros Hpeer. unfold onPubsubMessage. rewrite String.eqb_refl. cbn [negb].
  unfold announcement_payload, Utf8.TextDecoder_decode, Utf8.TextEncoder_encode.
  rewrite string_of_list_byte_of_string, JSON_parse_stringify by reflexivity.
  cbn [obind]. unfold handleFileAnnouncement. rewrite destructure_own_announcement.
  cbn [obind fi_peerId strict_eq_string].
  apply String.eqb_neq in Hpeer. rewrite Hpeer.
  eexists. split; [reflexivity|]. cbn [availableFiles fi_fileId].
  apply map_get_set_same, same_value_zero_str.
Qed.

(** On the second definition of the class, a request for a [fileId] that
    the responder does not share ends, at the requester, in the not-found
    error. *)
Lemma V2_absent_file_is_reported
    (responder : FileSharing) (libp2p : Libp2p) (peerId peerIdObj fileId : string) :
  let inbound := Scenario.stream_carrying (Lp.encode [chunk_of (request_value (VStr fileId))]) in
  let reply := delivered (snd (run (V2.protocolHandler responder inbound))) in
  map_has (VStr fileId) (sharedFiles responder) = false ->
  fits (chunk_of (request_value (VStr fileId))) = true ->
  peerIdFromString libp2p peerId = Returned peerIdObj ->
  dialProtocol libp2p peerIdObj FILE_SHARING_PROTOCOL
    = Returned (Some (Scenario.stream_carrying reply)) ->
  fst (run (V2.requestFile libp2p peerId (VStr fileId)))
  = Thrown (Error "Failed to request file: Peer response error: File not found or invalid request").
Proof.
  intros inbound reply Habsent Hfits Hpeer Hdial.
  assert (Hreq : decode_request inbound = Returned (VStr "request", VStr fileId))
    by now apply decode_request_chunk.
  assert (Hreply : reply = Lp.encode [chunk_of (error_value "File not found or invalid request")]).
  { unfold reply.
    rewrite (V2_handler_reports_unserved_request responder inbound _ _ Hreq).
    - reflexivity.
    - cbn [strict_eq_string]. now rewrite Habsent, andb_false_r. }
  rewrite Hreply in Hdial.
  rewrite (V2_requestFile_settles libp2p peerId peerIdObj (VStr fileId)
             (Scenario.stream_carrying
                (Lp.encode [chunk_of (error_value "File not found or invalid request")]))
             (error_value "File not found or invalid request")
             (VStr "File not found or invalid request") Hpeer Hdial); reflexivity.
Qed.

(** On the second definition of the class, a request for a shared file
    ends, at the requester, in the record the responder stored. *)
Lemma V2_shared_file_is_transferred
    (responder : FileSharing) (libp2p : Libp2p) (peerId peerIdObj fileId : string)
    (fileData : SharedFile) :
  let inbound := Scenario.stream_carrying (Lp.encode [chunk_of (request_value (VStr fileId))]) in
  let reply := delivered (snd (run (V2.protocolHandler responder inbound))) in
  map_get (VStr fileId) (sharedFiles responder) = Some fileData ->
  fits (chunk_of (request_value (VStr fileId))) = true ->
  fits (chunk_of (fileData_value fileData)) = true ->
  peerIdFromString libp2p peerId = Returned peerIdObj ->
  dialProtocol libp2p peerIdObj FILE_SHARING_PROTOCOL
    = Returned (Some (Scenario.stream_carrying reply)) ->
  fst (run (V2.requestFile libp2p peerId (VStr fileId)))
  = Returned (fileData_value fileData).
Proof.
  intros inbound reply Hshared Hrequest Hrecord Hpeer Hdial.
  assert (Hreq : decode_request inbound = Returned (VStr "request", VStr fileId))
    by now apply decode_request_chunk.
  assert (Hreply : reply = Lp.encode [chunk_of (fileData_value fileData)]).
  { unfold reply. rewrite V2_handler_run, Hreq. cbv zeta.
    unfold map_has. rewrite Hshared. cbn [strict_eq_string].
    change (("request" =? "request")%string && true) with true. cbv iota.
    unfold inbound, Scenario.stream_carrying, delivered, attempt. cbn [sink snd].
    cbn [List.filter accepted List.map bytes List.concat].
    apply List.app_nil_r. }
  rewrite Hreply in Hdial.
  rewrite (V2_requestFile_settles libp2p peerId peerIdObj (VStr fileId)
             (Scenario.stream_carrying (Lp.encode [chunk_of (fileData_value fileData)]))
             (fileData_value fileData) VUndefined Hpeer Hdial); try reflexivity.
  now apply receive_json_chunk.
Qed.

End WireFacts.

(* ================================================================== *)
(** * Further properties *)

(** ** The catalog *)

Section CatalogExtras.
Import Js Net Core Lifetime Shape.

Lemma map_get_delete_same {V : Type} (m : Map V) (k : value) :
  distinct_keys m -> map_get k (map_delete k m) = None.
Proof.
  induction m as [|[k0 v0] r IH]; simpl; [reflexivity|]. intros [Hnone Hd].
  destruct (same_value_zero k0 k) eqn:E.
  - apply same_value_zero_eq in E. now subst k0.
  - simpl. rewrite E. auto.
Qed.

Lemma map_delete_absent {V : Type} (m : Map V) (k : value) :
  map_get k m = None -> map_delete k m = m.
Proof.
  induction m as [|[k0 v0] r IH]; simpl; [reflexivity|].
  destruct (same_value_zero k0 k); [discriminate|]. intros H. now rewrite IH.
Qed.

Lemma map_set_absent {V : Type} (m : Map V) (k : value) (v : V) :
  map_get k m = None -> map_set k v m = (m ++ [(k, v)])%list.
Proof.
  induction m as [|[k0 v0] r IH]; simpl; [reflexivity|].
  destruct (same_value_zero k0 k); [discriminate|]. intros H. now rewrite IH.
Qed.

Lemma map_set_present_ids (m : Map SharedFile) (fileData old : SharedFile) :
  keyed_by_id m ->
  map_get (VStr (sf_id fileData)) m = Some old ->
  List.map sf_id (map_values (map_set (VStr (sf_id fileData)) fileData m))
  = List.map sf_id (map_values m).
Proof.
  induction m as [|[k0 f0] r IH]; simpl; [discriminate|].
  intros Hk Hget. inversion Hk as [|? ? Hk0 Hr]; subst. simpl in Hk0. subst k0.
  simpl in *. destruct (sf_id f0 =? sf_id fileData)%string eqn:E; simpl.
  - apply String.eqb_eq in E. now rewrite E.
  - f_equal. now apply IH.
Qed.

Lemma map_get_of_entry {V : Type} (m : Map V) (k : value) (v : V) :
  distinct_keys m -> same_value_zero k k = true ->
  In (k, v) m -> map_get k m = Some v.
Proof.
  induction m as [|[k0 v0] r IH]; simpl; [contradiction|].
  intros [Hnone Hd] Hk [Hin|Hin].
  - injection Hin as -> ->. now rewrite Hk.
  - destruct (same_value_zero k0 k) eqn:E; [|auto].
    apply same_value_zero_eq in E. subst k0.
    rewrite (IH Hd Hk Hin) in Hnone. discriminate.
Qed.

(** In a running instance, every file that [getSharedFiles] lists is found
    in the table under its own id. *)
Lemma listed_file_is_stored (self : string) (st : FileSharing) (f : SharedFile) :
  reachable self st -> In f (getSharedFiles st) ->
  map_get (VStr (sf_id f)) (sharedFiles st) = Some f.
Proof.
  intros Hreach Hin. destruct (reachable_invariant _ _ Hreach) as [Hd Hk _ _ _].
  unfold getSharedFiles, map_values in Hin. apply in_map_iff in Hin.
  destruct Hin as [[k v] [Hv Hin]]. simpl in Hv. subst v.
  unfold keyed_by_id in Hk. rewrite Forall_forall in Hk.
  pose proof (Hk _ Hin) as Hkey. simpl in Hkey. subst k.
  apply map_get_of_entry; auto. apply same_value_zero_str.
Qed.

(** X3: [removeSharedFile] of an id that is not in the table changes
    nothing. *)
Theorem removeSharedFile_absent_id (st : FileSharing) (fileId : string) :
  map_get (VStr fileId) (sharedFiles st) = None ->
  removeSharedFile st fileId = st.
Proof.
  intros H. unfold removeSharedFile. rewrite map_delete_absent by assumption.
  now destruct st.
Qed.

Lemma removeSharedFile_absent_id_witness :
  removeSharedFile Scenario.sharing_a "m4n5b6v7c" = Scenario.sharing_a.
Proof.
  apply (removeSharedFile_absent_id Scenario.sharing_a "m4n5b6v7c"). reflexivity.
Defined.

(** X4: the order of [getSharedFiles].  When [shareFile] reads the file and
    draws an id that is not in the table, the new record is appended after
    the records already listed; when it draws an id that is in the table, the
    list keeps its length and its order of ids. *)
Theorem shareFile_keeps_listing_order
    (self : string) (st : FileSharing) (file : File) (env : ShareEnv) (result : string) :
  let fileData :=
    {| sf_id := random_id env; sf_name := file_name file; sf_type := file_type file;
       sf_size := file_size file; sf_data := result; sf_timestamp := now_stored env |} in
  reachable self st ->
  reader env = Returned result ->
  (map_get (VStr (random_id env)) (sharedFiles st) = None ->
   getSharedFiles (fst (shareFile st file env)) = (getSharedFiles st ++ [fileData])%list) /\
  (forall old, map_get (VStr (random_id env)) (sharedFiles st) = Some old ->
   List.map sf_id (getSharedFiles (fst (shareFile st file env)))
   = List.map sf_id (getSharedFiles st)).
Proof.
  intros fileData Hreach Hreader. rewrite shareFile_state, Hreader.
  unfold getSharedFiles. simpl sharedFiles. fold fileData. split.
  - intros Hnone. rewrite map_set_absent by assumption.
    unfold map_values. now rewrite List.map_app.
  - intros old Hold. destruct (reachable_invariant _ _ Hreach) as [_ Hk _ _ _].
    exact (map_set_present_ids (sharedFiles st) fileData old Hk Hold).
Qed.

Lemma shareFile_keeps_listing_order_witness :
  getSharedFiles
    (fst (shareFile Scenario.sharing_a Scenario.b_png
            (Scenario.share_env "m4n5b6v7c" 1700000005000 Scenario.accepting)))
  = (getSharedFiles Scenario.sharing_a ++
     [{| sf_id := "m4n5b6v7c"; sf_name := "b.png"; sf_type := "image/png";
         sf_size := 2048; sf_data := "data:text/plain;base64,aGVsbG8=";
         sf_timestamp := 1700000005000 |}])%list.
Proof.
  apply (shareFile_keeps_listing_order Scenario.me Scenario.sharing_a Scenario.b_png
           (Scenario.share_env "m4n5b6v7c" 1700000005000 Scenario.accepting)
           "data:text/plain;base64,aGVsbG8=").
  - apply (reachable_step Scenario.me (new Scenario.me)
             (OpShareFile Scenario.a_txt
                (Scenario.share_env "k3x9q0z1a" 1700000000000 Scenario.accepting))).
    apply reachable_new.
  - reflexivity.
  - reflexivity.
Defined.

(** X5: [shareFile] resolves only when the file was read and [publish]
    accepted the announcement of the very record it stored; the id it
    resolves with is the one it drew, and the available-files table is as it
    was. *)
Theorem shareFile_resolves_after_publish
    (st st' : FileSharing) (file : File) (env : ShareEnv) (fileId : string) :
  shareFile st file env = (st', Returned fileId) ->
  exists result,
    reader env = Returned result /\
    fileId = random_id env /\
    publish (pubsub env) FILE_ANNOUNCE_TOPIC
      (announcement_payload
         (announcement_value (self_peerId st)
            {| sf_id := random_id env; sf_name := file_name file;
               sf_type := file_type file; sf_size := file_size file;
               sf_data := result; sf_timestamp := now_stored env |}
            (now_announced env))) = None /\
    availableFiles st' = availableFiles st.
Proof.
  intros Hshare.
  pose proof (shareFile_state st file env) as Hst. rewrite Hshare in Hst. simpl in Hst.
  unfold shareFile in Hshare. destruct (reader env) as [result|e]; [|discriminate].
  exists result. split; [reflexivity|].
  match type of Hshare with
  | (match announceFile ?s ?f ?n ?p with _ => _ end) = _ =>
      pose proof (announceFile_outcome s f n p) as Hout;
      destruct (announceFile s f n p) as [st2 [u|err]]
  end; [|discriminate].
  injection Hshare as _ <-. simpl in Hout. split; [reflexivity|]. split.
  - destruct (publish (pubsub env) _ _); [discriminate | reflexivity].
  - now subst st'.
Qed.

Lemma shareFile_resolves_after_publish_witness :
  exists result,
    reader (Scenario.share_env "k3x9q0z1a" 1700000000000 Scenario.accepting)
      = Returned result /\
    "k3x9q0z1a" = random_id (Scenario.share_env "k3x9q0z1a" 1700000000000 Scenario.accepting) /\
    publish (pubsub (Scenario.share_env "k3x9q0z1a" 1700000000000 Scenario.accepting))
      FILE_ANNOUNCE_TOPIC
      (announcement_payload
         (announcement_value (self_peerId (new Scenario.me))
            {| sf_id := random_id (Scenario.share_env "k3x9q0z1a" 1700000000000 Scenario.accepting);
               sf_name := file_name Scenario.a_txt;
               sf_type := file_type Scenario.a_txt; sf_size := file_size Scenario.a_txt;
               sf_data := result;
               sf_timestamp := now_stored (Scenario.share_env "k3x9q0z1a" 1700000000000 Scenario.accepting) |}
            (now_announced (Scenario.share_env "k3x9q0z1a" 1700000000000 Scenario.accepting))))
      = None /\
    availableFiles Scenario.sharing_a = availableFiles (new Scenario.me).
Proof.
  apply (shareFile_resolves_after_publish (new Scenario.me) Scenario.sharing_a Scenario.a_txt
           (Scenario.share_env "k3x9q0z1a" 1700000000000 Scenario.accepting) "k3x9q0z1a").
  reflexivity.
Defined.

Lemma handleFileAnnouncement_dropped (st st' : FileSharing) (a : value) :
  handleFileAnnouncement st a = Returned (st', None) -> st' = st.
Proof.
  unfold handleFileAnnouncement.
  destruct (destructure_announcement a) as [info|e]; simpl; [|discriminate].
  destruct (strict_eq_string _ _); intros [= <-]; reflexivity.
Qed.

(** X6: the pub/sub listener repaints whenever it touches the catalog.  A
    message after which [updateAvailableFilesList] is not called left the
    instance exactly as it was (another topic, a payload that does not
    parse, an announcement of the local peer); a message after which it is
    called stored one record, under the [fileId] the record carries, and left
    the shared-files table alone. *)
Theorem listener_repaints_on_every_change
    (st : FileSharing) (topic : string) (data : list byte) :
  (snd (onPubsubMessage st topic data) = false -> fst (onPubsubMessage st topic data) = st) /\
  (snd (onPubsubMessage st topic data) = true ->
   exists info,
     availableFiles (fst (onPubsubMessage st topic data))
     = map_set (fi_fileId info) info (availableFiles st) /\
     sharedFiles (fst (onPubsubMessage st topic data)) = sharedFiles st).
Proof.
  unfold onPubsubMessage. destruct (negb _); [split; [reflexivity | discriminate]|].
  destruct (Json.JSON_parse _) as [a|e]; simpl; [|split; [reflexivity | discriminate]].
  destruct (handleFileAnnouncement st a) as [[st' [i|]]|e] eqn:E; simpl.
  - split; [discriminate|]. intros _. exists i.
    unfold handleFileAnnouncement in E.
    destruct (destructure_announcement a) as [info|e]; simpl in E; [|discriminate].
    destruct (strict_eq_string _ _); [discriminate|].
    injection E as <- <-. split; reflexivity.
  - split; [|discriminate]. intros _. now apply handleFileAnnouncement_dropped in E.
  - split; [reflexivity | discriminate].
Qed.

Lemma listener_repaints_on_every_change_witness :
  fst (onPubsubMessage Scenario.sharing_a FILE_ANNOUNCE_TOPIC
         (Utf8.TextEncoder_encode "not json")) = Scenario.sharing_a.
Proof.
  apply (listener_repaints_on_every_change Scenario.sharing_a FILE_ANNOUNCE_TOPIC
           (Utf8.TextEncoder_encode "not json")).
  reflexivity.
Defined.

Lemma published_announcement_is_stored_witness :
  exists st',
    onPubsubMessage Scenario.sharing_a FILE_ANNOUNCE_TOPIC
      (announcement_payload
         (announcement_value Scenario.other Scenario.a_record 1700000000001))
      = (st', true) /\
    map_get (VStr "k3x9q0z1a") (availableFiles st')
    = Some {| fi_peerId := VStr Scenario.other; fi_fileId := VStr "k3x9q0z1a";
              fi_fileName := VStr "a.txt"; fi_fileSize := VNum 1024;
              fi_timestamp := VNum 1700000000001 |}.
Proof.
  apply (published_announcement_is_stored Scenario.sharing_a Scenario.other
           Scenario.a_record 1700000000001).
  discriminate.
Defined.

Lemma reannounce_outcome (files : list SharedFile) (st : FileSharing) (i : nat)
    (clock : nat -> Z) (ps : PubSub) :
  snd (reannounce st files i clock ps) = Returned tt <->
  (forall j f, List.nth_error files j = Some f ->
     publish ps FILE_ANNOUNCE_TOPIC
       (announcement_payload (announcement_value (self_peerId st) f (clock (i + j))))
     = None).
Proof.
  revert i. induction files as [|f r IH]; intros i; simpl.
  - split; [|reflexivity]. intros _ [|j] g Hg; discriminate Hg.
  - pose proof (announceFile_state st f (clock i) ps) as Hst.
    pose proof (announceFile_outcome st f (clock i) ps) as Hout.
    destruct (announceFile st f (clock i) ps) as [st' [u|e]]; simpl in Hst, Hout; subst st'.
    + rewrite IH. split.
      * intros H [|j] g Hg; simpl in Hg.
        -- injection Hg as <-. rewrite Nat.add_0_r.
           destruct (publish ps _ _); [discriminate | reflexivity].
        -- rewrite <- Nat.add_succ_comm. now apply H.
      * intros H j g Hg. rewrite Nat.add_succ_comm. now apply (H (S j)).
    + simpl. split; [discriminate|]. intros H.
      specialize (H 0 f eq_refl). rewrite Nat.add_0_r in H.
      rewrite H in Hout. discriminate.
Qed.

(** X7: the [peer:connect] listener changes neither table, whatever [publish]
    does, and it completes exactly when [publish] accepts the announcement of
    every shared file, each built with the local peer id and the clock
    reading of its turn. *)
Theorem onPeerConnect_reannounces_every_file
    (st : FileSharing) (clock : nat -> Z) (ps : PubSub) :
  fst (onPeerConnect st clock ps) = st /\
  (snd (onPeerConnect st clock ps) = Returned tt <->
   forall i f, List.nth_error (getSharedFiles st) i = Some f ->
     publish ps FILE_ANNOUNCE_TOPIC
       (announcement_payload (announcement_value (self_peerId st) f (clock i)))
     = None).
Proof.
  unfold onPeerConnect. split; [apply reannounce_state|].
  apply (reannounce_outcome (getSharedFiles st) st 0 clock ps).
Qed.

End CatalogExtras.

(** ** The transfer protocol *)

Section ProtocolExtras.
Import Js Json Net Core Lifetime Shape.

Lemma onPeerConnect_reannounces_every_file_witness :
  snd (onPeerConnect Scenario.sharing_a (fun i => 1700000007000 + Z.of_nat i)%Z
         Scenario.accepting) = Returned tt.
Proof.
  apply (onPeerConnect_reannounces_every_file Scenario.sharing_a
           (fun i => 1700000007000 + Z.of_nat i)%Z Scenario.accepting).
  intros i f _. reflexivity.
Defined.

(** X8: every failure of the second [requestFile] is wrapped: whatever goes
    wrong (peer id, dial, stream, write, framing, JSON, error response), the
    message of the error it fails with starts with
    [Failed to request file: ]. *)
Theorem requestFile_failures_are_wrapped
    (libp2p : Libp2p) (peerId : string) (fileId : value) (err : exn) :
  fst (run (V2.requestFile libp2p peerId fileId)) = Thrown err ->
  exists cause, message err = "Failed to request file: " ++ cause.
Proof.
  unfold run, V2.requestFile. unfold try_catch at 1.
  match goal with
  | |- fst (match ?body [] with _ => _ end) = _ -> _ => destruct (body []) as [[v|e] w]
  end; simpl.
  - discriminate.
  - intros [= <-]. now exists (message e).
Qed.

Lemma requestFile_failures_are_wrapped_witness :
  exists cause,
    message (Error "Failed to request file: Peer response error: File not found or invalid request")
    = "Failed to request file: " ++ cause.
Proof.
  apply (requestFile_failures_are_wrapped
           (Scenario.node (Scenario.inbound (error_value "File not found or invalid request")))
           Scenario.other (VStr "q7w8e9r0t")).
  vm_compute. reflexivity.
Defined.

(** X9: a peer id that [peerIdFromString] rejects makes the second
    [requestFile] fail before it dials: nothing is written, and the message
    names the cause. *)
Theorem requestFile_rejects_malformed_peer_id
    (libp2p : Libp2p) (peerId : string) (fileId : value) (err : exn) :
  peerIdFromString libp2p peerId = Thrown err ->
  run (V2.requestFile libp2p peerId fileId) =
  (Thrown (Error ("Failed to request file: Invalid peer ID format: " ++ message err)), []).
Proof.
  intros Hpeer. unfold run, V2.requestFile, try_catch, bind, lift, throw.
  now rewrite Hpeer.
Qed.

Lemma requestFile_rejects_malformed_peer_id_witness :
  run (V2.requestFile
         {| peerIdFromString := fun _ => Thrown (Error "Non-base58btc character");
            dialProtocol := fun _ _ => Returned (Some (Scenario.stream_carrying [])) |}
         "not-a-peer-id" (VStr "q7w8e9r0t")) =
  (Thrown (Error "Failed to request file: Invalid peer ID format: Non-base58btc character"), []).
Proof.
  apply (requestFile_rejects_malformed_peer_id
           {| peerIdFromString := fun _ => Thrown (Error "Non-base58btc character");
              dialProtocol := fun _ _ => Returned (Some (Scenario.stream_carrying [])) |}
           "not-a-peer-id" (VStr "q7w8e9r0t") (Error "Non-base58btc character")).
  reflexivity.
Defined.

(** X10: once a stream is open, either [requestFile] makes exactly one call of
    the sink, with the framed request [{type: 'request', fileId}]; when the
    sink refuses it, the call fails with the sink's error (wrapped, in the
    second definition) whatever the stream would have delivered. *)
Theorem requestFile_sends_one_request
    (libp2p : Libp2p) (peerId peerIdObj : string) (fileId : value) (stream : Stream) :
  (dialProtocol libp2p peerId FILE_SHARING_PROTOCOL = Returned (Some stream) ->
   snd (run (V1.requestFile libp2p peerId fileId))
   = [attempt stream 0 (chunk_of (request_value fileId))] /\
   (forall e, sink stream 0 = Some e ->
      fst (run (V1.requestFile libp2p peerId fileId)) = Thrown e)) /\
  (peerIdFromString libp2p peerId = Returned peerIdObj ->
   dialProtocol libp2p peerIdObj FILE_SHARING_PROTOCOL = Returned (Some stream) ->
   snd (run (V2.requestFile libp2p peerId fileId))
   = [attempt stream 0 (chunk_of (request_value fileId))] /\
   (forall e, sink stream 0 = Some e ->
      fst (run (V2.requestFile libp2p peerId fileId))
      = Thrown (Error ("Failed to request file: " ++ message e)))).
Proof.
  split.
  - intros Hdial. unfold run, V1.requestFile, bind, lift, ret.
    rewrite Hdial, pipe_to_sink_run. simpl.
    destruct (sink stream 0) as [e|] eqn:Hsink.
    + split; [reflexivity|]. now intros e' [= <-].
    + split; [|discriminate]. now destruct (receive_json stream).
  - intros Hpeer Hdial. unfold run, V2.requestFile, try_catch, bind, lift, throw, ret.
    rewrite Hpeer, Hdial, pipe_to_sink_run. simpl.
    destruct (sink stream 0) as [e|] eqn:Hsink.
    + split; [reflexivity|]. now intros e' [= <-].
    + split; [|discriminate].
      destruct (receive_json stream) as [response|e]; [|reflexivity].
      destruct (get_prop response "error") as [error|e]; [|reflexivity].
      destruct (truthy error); [|reflexivity].
      now destruct (to_string error).
Qed.

Lemma requestFile_sends_one_request_witness :
  snd (run (V2.requestFile
              (Scenario.node
                 {| source := Returned (Lp.encode [chunk_of (fileData_value Scenario.a_record)]);
                    sink := fun _ => Some (Error "stream reset") |})
              Scenario.other (VStr "k3x9q0z1a")))
  = [attempt {| source := Returned (Lp.encode [chunk_of (fileData_value Scenario.a_record)]);
                sink := fun _ => Some (Error "stream reset") |} 0
       (chunk_of (request_value (VStr "k3x9q0z1a")))] /\
  fst (run (V2.requestFile
              (Scenario.node
                 {| source := Returned (Lp.encode [chunk_of (fileData_value Scenario.a_record)]);
                    sink := fun _ => Some (Error "stream reset") |})
              Scenario.other (VStr "k3x9q0z1a")))
  = Thrown (Error "Failed to request file: stream reset").
Proof.
  pose proof (requestFile_sends_one_request
                (Scenario.node
                   {| source := Returned (Lp.encode [chunk_of (fileData_value Scenario.a_record)]);
                      sink := fun _ => Some (Error "stream reset") |})
                Scenario.other Scenario.other (VStr "k3x9q0z1a")
                {| source := Returned (Lp.encode [chunk_of (fileData_value Scenario.a_record)]);
                   sink := fun _ => Some (Error "stream reset") |}) as [_ H].
  destruct H as [Hwrites Hfail]; [reflexivity | reflexivity |].
  split; [exact Hwrites|]. apply (Hfail (Error "stream reset")). reflexivity.
Defined.

(** X11: neither handler ever delivers more than one frame to the requester,
    which reads only the first one; the second handler makes a second call of
    the sink only after the sink refused the first. *)
Theorem handler_delivers_at_most_one_frame (st : FileSharing) (stream : Stream) :
  List.length (List.filter accepted (snd (run (V1.protocolHandler st stream)))) <= 1 /\
  List.length (List.filter accepted (snd (run (V2.protocolHandler st stream)))) <= 1 /\
  (sink stream 0 = None ->
   List.length (snd (run (V2.protocolHandler st stream))) = 1).
Proof.
  rewrite V1_handler_run, V2_handler_run.
  destruct (decode_request stream) as [[type fileId]|e]; cbv zeta.
  - destruct (strict_eq_string type "request" && map_has fileId (sharedFiles st)) eqn:E.
    + apply andb_true_iff in E. destruct E as [_ E]. apply map_has_get in E.
      destruct E as [v ->]. split; [|split].
      * cbn [snd]. unfold attempt. destruct (sink stream 0); simpl; lia.
      * destruct (sink stream 0) as [e0|] eqn:E0; cbn [snd]; unfold attempt; rewrite E0;
          [destruct (sink stream 1)|]; simpl; lia.
      * intros ->. reflexivity.
    + split; [|split].
      * simpl. lia.
      * destruct (sink stream 0) as [e0|] eqn:E0; cbn [snd]; unfold attempt; rewrite E0;
          [destruct (sink stream 1)|]; simpl; lia.
      * intros ->. reflexivity.
  - split; [|split].
    + simpl. lia.
    + cbn [snd]. unfold attempt. destruct (sink stream 0); simpl; lia.
    + intros _. reflexivity.
Qed.

Lemma handler_delivers_at_most_one_frame_witness :
  List.length (snd (run (V2.protocolHandler Scenario.sharing_a Scenario.inbound_garbage))) = 1.
Proof.
  apply (handler_delivers_at_most_one_frame Scenario.sharing_a Scenario.inbound_garbage).
  reflexivity.
Defined.

Lemma V2_handler_best_effort_witness :
  snd (run (V2.protocolHandler Scenario.sharing_a Scenario.inbound_garbage))
  = [attempt Scenario.inbound_garbage 0
       (chunk_of (error_value (message (Error "Unexpected token in JSON"))))].
Proof.
  apply (V2_handler_best_effort Scenario.sharing_a Scenario.inbound_garbage).
  vm_compute. reflexivity.
Defined.

(** X12: on the second definition, every file that a running instance lists
    in [getSharedFiles], and whose record is at most 4 MiB long on the wire,
    is served: for a peer id that [peerIdFromString] accepts and a dial that
    opens the stream, a [requestFile] for the file's id against that
    instance's handler returns the stored record, with its name, size and
    data. *)
Theorem listed_file_is_served
    (self : string) (responder : FileSharing) (libp2p : Libp2p)
    (peerId peerIdObj : string) (f : SharedFile) :
  let inbound :=
    Scenario.stream_carrying (Lp.encode [chunk_of (request_value (VStr (sf_id f)))]) in
  let reply := delivered (snd (run (V2.protocolHandler responder inbound))) in
  reachable self responder ->
  In f (getSharedFiles responder) ->
  fits (chunk_of (fileData_value f)) = true ->
  peerIdFromString libp2p peerId = Returned peerIdObj ->
  dialProtocol libp2p peerIdObj FILE_SHARING_PROTOCOL
    = Returned (Some (Scenario.stream_carrying reply)) ->
  fst (run (V2.requestFile libp2p peerId (VStr (sf_id f)))) = Returned (fileData_value f).
Proof.
  intros inbound reply Hreach Hin Hfits Hpeer Hdial.
  apply (V2_shared_file_is_transferred responder libp2p peerId peerIdObj (sf_id f) f);
    try assumption.
  - now apply (listed_file_is_stored self).
  - now apply request_fits.
Qed.

Lemma listed_file_is_served_witness :
  fst (run (V2.requestFile
              (Scenario.node
                 (Scenario.stream_carrying
                    (delivered
                       (snd (run (V2.protocolHandler Scenario.sharing_a
                                    (Scenario.stream_carrying
                                       (Lp.encode [chunk_of (request_value (VStr "k3x9q0z1a"))]))))))))
              Scenario.me (VStr "k3x9q0z1a")))
  = Returned (fileData_value Scenario.a_record).
Proof.
  apply (listed_file_is_served Scenario.me Scenario.sharing_a
           (Scenario.node
              (Scenario.stream_carrying
                 (delivered
                    (snd (run (V2.protocolHandler Scenario.sharing_a
                                 (Scenario.stream_carrying
                                    (Lp.encode [chunk_of (request_value (VStr "k3x9q0z1a"))]))))))))
           Scenario.me Scenario.me Scenario.a_record).
  - apply (reachable_step Scenario.me (new Scenario.me)
             (OpShareFile Scenario.a_txt
                (Scenario.share_env "k3x9q0z1a" 1700000000000 Scenario.accepting))).
    apply reachable_new.
  - left. reflexivity.
  - reflexivity.
  - reflexivity.
  - reflexivity.
Defined.

(** X13: the first definition transfers a shared file too, when the request
    and the record are at most 4 MiB long on the wire: its handler answers a
    request for a stored id with the record, and its [requestFile], on the
    stream that the dial opens, returns that record. *)
Theorem V1_shared_file_is_transferred
    (responder : FileSharing) (libp2p : Libp2p) (peerId fileId : string)
    (fileData : SharedFile) :
  let inbound := Scenario.stream_carrying (Lp.encode [chunk_of (request_value (VStr fileId))]) in
  let reply := delivered (snd (run (V1.protocolHandler responder inbound))) in
  map_get (VStr fileId) (sharedFiles responder) = Some fileData ->
  fits (chunk_of (request_value (VStr fileId))) = true ->
  fits (chunk_of (fileData_value fileData)) = true ->
  dialProtocol libp2p peerId FILE_SHARING_PROTOCOL
    = Returned (Some (Scenario.stream_carrying reply)) ->
  fst (run (V1.requestFile libp2p peerId (VStr fileId))) = Returned (fileData_value fileData).
Proof.
  intros inbound reply Hshared Hrequest Hrecord Hdial.
  assert (Hreq : decode_request inbound = Returned (VStr "request", VStr fileId))
    by now apply decode_request_chunk.
  assert (Hreply : reply = Lp.encode [chunk_of (fileData_value fileData)]).
  { unfold reply. rewrite V1_handler_run, Hreq.
    unfold map_has. rewrite Hshared. cbn [strict_eq_string].
    change (("request" =? "request")%string && true) with true. cbv iota.
    unfold inbound, Scenario.stream_carrying, delivered, attempt. cbn [sink snd].
    cbn [List.filter accepted List.map bytes List.concat].
    apply List.app_nil_r. }
  rewrite Hreply in Hdial.
  apply (V1_requestFile_settles libp2p peerId (VStr fileId)
           (Scenario.stream_carrying (Lp.encode [chunk_of (fileData_value fileData)])));
    try assumption; try reflexivity.
  now apply receive_json_chunk.
Qed.

Lemma V1_shared_file_is_transferred_witness :
  fst (run (V1.requestFile
              (Scenario.node
                 (Scenario.stream_carrying
                    (delivered
                       (snd (run (V1.protocolHandler Scenario.sharing_a
                                    (Scenario.stream_carrying
                                       (Lp.encode [chunk_of (request_value (VStr "k3x9q0z1a"))]))))))))
              Scenario.me (VStr "k3x9q0z1a")))
  = Returned (fileData_value Scenario.a_record).
Proof.
  apply (V1_shared_file_is_transferred Scenario.sharing_a
           (Scenario.node
              (Scenario.stream_carrying
                 (delivered
                    (snd (run (V1.protocolHandler Scenario.sharing_a
                                 (Scenario.stream_carrying
                                    (Lp.encode [chunk_of (request_value (VStr "k3x9q0z1a"))]))))))))
           Scenario.me "k3x9q0z1a" Scenario.a_record); reflexivity.
Defined.

(** X14: a file removed with [removeSharedFile] is gone from a running
    instance: no record with its id is listed any more, and a [requestFile]
    for it, with a peer id that [peerIdFromString] accepts and a request of
    at most 4 MiB, is answered by the second handler with the not-found
    error. *)
Theorem removed_file_is_not_served
    (self : string) (st : FileSharing) (libp2p : Libp2p)
    (peerId peerIdObj fileId : string) :
  let st' := removeSharedFile st fileId in
  let inbound := Scenario.stream_carrying (Lp.encode [chunk_of (request_value (VStr fileId))]) in
  let reply := delivered (snd (run (V2.protocolHandler st' inbound))) in
  reachable self st ->
  fits (chunk_of (request_value (VStr fileId))) = true ->
  peerIdFromString libp2p peerId = Returned peerIdObj ->
  dialProtocol libp2p peerIdObj FILE_SHARING_PROTOCOL
    = Returned (Some (Scenario.stream_carrying reply)) ->
  filter (fun f => String.eqb (sf_id f) fileId) (getSharedFiles st') = [] /\
  fst (run (V2.requestFile libp2p peerId (VStr fileId)))
  = Thrown (Error "Failed to request file: Peer response error: File not found or invalid request").
Proof.
  intros st' inbound reply Hreach Hfits Hpeer Hdial.
  destruct (reachable_invariant _ _ Hreach) as [Hd Hk _ _ _].
  assert (Hnone : map_get (VStr fileId) (sharedFiles st') = None).
  { simpl. now apply map_get_delete_same. }
  split.
  - unfold getSharedFiles.
    apply (filter_key_absent (fun f => VStr (sf_id f)) (sharedFiles st') (VStr fileId)).
    + simpl. now apply Forall_map_delete.
    + exact Hnone.
  - apply (V2_absent_file_is_reported st' libp2p peerId peerIdObj fileId); try assumption.
    unfold map_has. now rewrite Hnone.
Qed.

Lemma removed_file_is_not_served_witness :
  filter (fun f => String.eqb (sf_id f) "k3x9q0z1a")
    (getSharedFiles (removeSharedFile Scenario.sharing_a "k3x9q0z1a")) = [] /\
  fst (run (V2.requestFile
              (Scenario.node
                 (Scenario.stream_carrying
                    (delivered
                       (snd (run (V2.protocolHandler
                                    (removeSharedFile Scenario.sharing_a "k3x9q0z1a")
                                    (Scenario.stream_carrying
                                       (Lp.encode [chunk_of (request_value (VStr "k3x9q0z1a"))]))))))))
              Scenario.me (VStr "k3x9q0z1a")))
  = Thrown (Error "Failed to request file: Peer response error: File not found or invalid request").
Proof.
  apply (removed_file_is_not_served Scenario.me Scenario.sharing_a
           (Scenario.node
              (Scenario.stream_carrying
                 (delivered
                    (snd (run (V2.protocolHandler
                                 (removeSharedFile Scenario.sharing_a "k3x9q0z1a")
                                 (Scenario.stream_carrying
                                    (Lp.encode [chunk_of (request_value (VStr "k3x9q0z1a"))]))))))))
           Scenario.me Scenario.me "k3x9q0z1a").
  - apply (reachable_step Scenario.me (new Scenario.me)
             (OpShareFile Scenario.a_txt
                (Scenario.share_env "k3x9q0z1a" 1700000000000 Scenario.accepting))).
    apply reachable_new.
  - reflexivity.
  - reflexivity.
  - reflexivity.
Defined.

(** X15: the second handler refuses whatever it does not serve.  When the
    request is decoded, its [type] is not ['request'] or its [fileId] is not
    in the shared-files table, and the sink takes the reply, the requester
    reads one message, [{error: 'File not found or invalid request'}]; this
    holds for a shared [fileId] asked with another [type] too. *)
Theorem unserved_request_gets_error_response
    (st : FileSharing) (inbound : Stream) (type fileId : value) :
  decode_request inbound = Returned (type, fileId) ->
  strict_eq_string type "request" && map_has fileId (sharedFiles st) = false ->
  sink inbound 0 = None ->
  receive_json
    (Scenario.stream_carrying (delivered (snd (run (V2.protocolHandler st inbound)))))
  = Returned (error_value "File not found or invalid request").
Proof.
  intros Hreq Hcond Hsink.
  rewrite (V2_handler_reports_unserved_request st _ _ _ Hreq Hcond), Hsink.
  unfold delivered, attempt. rewrite Hsink. reflexivity.
Qed.

Lemma unserved_request_gets_error_response_witness :
  receive_json
    (Scenario.stream_carrying
       (delivered
          (snd (run (V2.protocolHandler Scenario.sharing_a
                       (Scenario.inbound
                          (VObj [("type", VStr "download"); ("fileId", VStr "k3x9q0z1a")])))))))
  = Returned (error_value "File not found or invalid request").
Proof.
  apply (unserved_request_gets_error_response Scenario.sharing_a
           (Scenario.inbound (VObj [("type", VStr "download"); ("fileId", VStr "k3x9q0z1a")]))
           (VStr "download") (VStr "k3x9q0z1a")); reflexivity.
Defined.

End ProtocolExtras.

(** ** The page *)

Section FormatFacts.
Import Js Ui.

Lemma scale_range (bytes : Z) :
  let k := scale (List.length units - 1) bytes 0 in
  (k <= 3)%nat /\
  ((0 < k)%nat -> (1024 ^ Z.of_nat k <= bytes)%Z) /\
  ((k < 3)%nat -> (bytes < 1024 ^ Z.of_nat (S k))%Z).
Proof.
  cbv zeta. change (List.length units - 1)%nat with 3%nat. cbn [scale].
  change (List.length units - 1)%nat with 3%nat.
  change (0 <? 3)%nat with true. change (1 <? 3)%nat with true.
  change (2 <? 3)%nat with true. rewrite !andb_true_r.
  destruct (Z.leb_spec (1024 ^ Z.of_nat 1) bytes) as [H1|H1].
  - destruct (Z.leb_spec (1024 ^ Z.of_nat 2) bytes) as [H2|H2].
    + destruct (Z.leb_spec (1024 ^ Z.of_nat 3) bytes) as [H3|H3].
      * repeat split; [lia | intros _; exact H3 | lia].
      * repeat split; [lia | intros _; exact H2 | intros _; exact H3].
    + repeat split; [lia | intros _; exact H1 | intros _; exact H2].
  - repeat split; [lia | lia | intros _; exact H1].
Qed.

Lemma toFixed1_abs_tenths (num den : Z) :
  (0 < den)%Z ->
  let n := ((20 * num + den) / (2 * den))%Z in
  (2 * den * n <= 20 * num + den < 2 * den * (n + 1))%Z.
Proof.
  intros Hden n. subst n. split.
  - apply Z.mul_div_le. lia.
  - pose proof (Z.mul_succ_div_gt (20 * num + den) (2 * den)). lia.
Qed.

Lemma toFixed1_abs_below (num den : Z) :
  (0 < den)%Z -> (num < 10 ^ 21 * den)%Z ->
  toFixed1_abs num den
  = let n := ((20 * num + den) / (2 * den))%Z in
    string_of_Z (n / 10) ++ "." ++ string_of_Z (n mod 10).
Proof.
  intros Hden Hnum. unfold toFixed1_abs.
  assert (H : (10 ^ 21 * den <=? num)%Z = false) by (apply Z.leb_gt; exact Hnum).
  now rewrite H.
Qed.

(** X16: what [formatFileSize] shows for a size that is not negative and
    below 10^21 GB (from there on [toFixed] switches to exponent notation).
    The unit is B below 1024, then KB, MB or GB, the largest whose size in
    bytes does not exceed [bytes], and GB from there on; the number is
    [bytes] in that unit rounded to the nearest tenth, half a tenth up,
    printed with one digit after the point. *)
Theorem formatFileSize_shows_nearest_tenth (bytes : Z) :
  (0 <= bytes < 10 ^ 21 * 1024 ^ 3)%Z ->
  exists (k : nat) (n : Z),
    formatFileSize bytes
    = string_of_Z (n / 10) ++ "." ++ string_of_Z (n mod 10) ++ " " ++ List.nth k units "" /\
    (k <= 3)%nat /\
    ((0 < k)%nat -> (1024 ^ Z.of_nat k <= bytes)%Z) /\
    ((k < 3)%nat -> (bytes < 1024 ^ Z.of_nat (S k))%Z) /\
    (2 * 1024 ^ Z.of_nat k * n <= 20 * bytes + 1024 ^ Z.of_nat k
     < 2 * 1024 ^ Z.of_nat k * (n + 1))%Z.
Proof.
  intros [Hpos Hmax]. pose proof (scale_range bytes) as Hk. cbv zeta in Hk.
  exists (scale (List.length units - 1) bytes 0).
  exists ((20 * bytes + 1024 ^ Z.of_nat (scale (List.length units - 1) bytes 0))
          / (2 * 1024 ^ Z.of_nat (scale (List.length units - 1) bytes 0)))%Z.
  destruct Hk as [H3 [Hlow Hhigh]]. split; [|repeat split; try assumption].
  - unfold formatFileSize, toFixed1. cbv zeta.
    assert (Hneg : (bytes <? 0)%Z = false) by (apply Z.ltb_ge; lia).
    rewrite Hneg. rewrite toFixed1_abs_below.
    + cbv zeta. now rewrite !string_app_assoc.
    + apply Z.pow_pos_nonneg; lia.
    + set (k := scale (List.length units - 1) bytes 0) in *.
      assert (Hcases : k = 0%nat \/ k = 1%nat \/ k = 2%nat \/ k = 3%nat) by lia.
      destruct Hcases as [-> | [-> | [-> | ->]]].
      * specialize (Hhigh ltac:(lia)). change (1024 ^ Z.of_nat 1)%Z with 1024%Z in Hhigh.
        change (1024 ^ Z.of_nat 0)%Z with 1%Z. lia.
      * specialize (Hhigh ltac:(lia)). change (1024 ^ Z.of_nat 2)%Z with 1048576%Z in Hhigh.
        change (1024 ^ Z.of_nat 1)%Z with 1024%Z. lia.
      * specialize (Hhigh ltac:(lia)).
        change (1024 ^ Z.of_nat 3)%Z with 1073741824%Z in Hhigh.
        change (1024 ^ Z.of_nat 2)%Z with 1048576%Z. lia.
      * change (Z.of_nat 3) with 3%Z. exact Hmax.
  - apply toFixed1_abs_tenths. apply Z.pow_pos_nonneg; lia.
  - apply toFixed1_abs_tenths. apply Z.pow_pos_nonneg; lia.
Qed.

Lemma formatFileSize_shows_nearest_tenth_witness :
  exists (k : nat) (n : Z),
    formatFileSize 1536
    = string_of_Z (n / 10) ++ "." ++ string_of_Z (n mod 10) ++ " " ++ List.nth k units "" /\
    (k <= 3)%nat /\
    ((0 < k)%nat -> (1024 ^ Z.of_nat k <= 1536)%Z) /\
    ((k < 3)%nat -> (1536 < 1024 ^ Z.of_nat (S k))%Z) /\
    (2 * 1024 ^ Z.of_nat k * n <= 20 * 1536 + 1024 ^ Z.of_nat k
     < 2 * 1024 ^ Z.of_nat k * (n + 1))%Z.
Proof.
  apply (formatFileSize_shows_nearest_tenth 1536). lia.
Defined.

(** X17: a size below 1024 is shown in bytes, with [.0] after it. *)
Theorem formatFileSize_below_1024 (bytes : Z) :
  (0 <= bytes < 1024)%Z ->
  formatFileSize bytes = string_of_Z bytes ++ ".0 B".
Proof.
  intros [Hlo Hhi]. unfold formatFileSize.
  change (List.length units - 1)%nat with 3%nat. cbn [scale].
  change (1024 ^ Z.of_nat 1)%Z with 1024%Z.
  assert (H : (1024 <=? bytes)%Z = false) by (apply Z.leb_gt; lia).
  rewrite H. cbn [andb List.nth units]. unfold toFixed1.
  assert (Hneg : (bytes <? 0)%Z = false) by (apply Z.ltb_ge; lia).
  rewrite Hneg. change (1024 ^ Z.of_nat 0)%Z with 1%Z.
  rewrite toFixed1_abs_below by lia. cbv zeta.
  assert (Hn : ((20 * bytes + 1) / (2 * 1) = 10 * bytes)%Z).
  { symmetry. apply (Z.div_unique_pos _ _ _ 1); lia. }
  rewrite Hn.
  assert (Hq : (10 * bytes / 10 = bytes)%Z).
  { rewrite Z.mul_comm. apply Z.div_mul. lia. }
  assert (Hr : ((10 * bytes) mod 10 = 0)%Z).
  { rewrite Z.mul_comm. apply Z.mod_mul. lia. }
  rewrite Hq, Hr. now rewrite !string_app_assoc.
Qed.

Lemma formatFileSize_below_1024_witness :
  formatFileSize 1023 = "1023.0 B".
Proof.
  apply (formatFileSize_below_1024 1023). lia.
Defined.

(** X18: just below a unit boundary the number shown reaches 1024.0 of the
    smaller unit: from 1048525 bytes up to 1048575 the text is [1024.0 KB],
    and from 1073689396 bytes up to 1073741823 it is [1024.0 MB]. *)
Theorem formatFileSize_rounds_up_to_1024 (bytes : Z) :
  ((1048525 <= bytes < 1048576)%Z -> formatFileSize bytes = "1024.0 KB") /\
  ((1073689396 <= bytes < 1073741824)%Z -> formatFileSize bytes = "1024.0 MB").
Proof.
  split; intros [Hlo Hhi]; unfold formatFileSize;
    change (List.length units - 1)%nat with 3%nat; cbn [scale];
    change (List.length units - 1)%nat with 3%nat;
    change (1024 ^ Z.of_nat 1)%Z with 1024%Z;
    change (1024 ^ Z.of_nat 2)%Z with 1048576%Z;
    change (1024 ^ Z.of_nat 3)%Z with 1073741824%Z.
  - assert (H1 : (1024 <=? bytes)%Z = true) by (apply Z.leb_le; lia).
    assert (H2 : (1048576 <=? bytes)%Z = false) by (apply Z.leb_gt; lia).
    rewrite H1, H2. cbn [andb Nat.ltb Nat.leb List.nth units].
    unfold toFixed1.
    assert (Hneg : (bytes <? 0)%Z = false) by (apply Z.ltb_ge; lia).
    rewrite Hneg. change (1024 ^ Z.of_nat 1)%Z with 1024%Z.
    rewrite toFixed1_abs_below by lia. cbv zeta.
    assert (Hn : ((20 * bytes + 1024) / (2 * 1024) = 10240)%Z).
    { symmetry. apply (Z.div_unique_pos _ _ _ (20 * bytes + 1024 - 2 * 1024 * 10240)); lia. }
    rewrite Hn. reflexivity.
  - assert (H1 : (1024 <=? bytes)%Z = true) by (apply Z.leb_le; lia).
    assert (H2 : (1048576 <=? bytes)%Z = true) by (apply Z.leb_le; lia).
    assert (H3 : (1073741824 <=? bytes)%Z = false) by (apply Z.leb_gt; lia).
    rewrite H1, H2, H3. cbn [andb Nat.ltb Nat.leb List.nth units].
    unfold toFixed1.
    assert (Hneg : (bytes <? 0)%Z = false) by (apply Z.ltb_ge; lia).
    rewrite Hneg. change (1024 ^ Z.of_nat 2)%Z with 1048576%Z.
    rewrite toFixed1_abs_below by lia. cbv zeta.
    assert (Hn : ((20 * bytes + 1048576) / (2 * 1048576) = 10240)%Z).
    { symmetry.
      apply (Z.div_unique_pos _ _ _ (20 * bytes + 1048576 - 2 * 1048576 * 10240)); lia. }
    rewrite Hn. reflexivity.
Qed.

Lemma formatFileSize_rounds_up_to_1024_witness :
  formatFileSize 1048575 = "1024.0 KB".
Proof.
  apply (formatFileSize_rounds_up_to_1024 1048575). lia.
Defined.

End FormatFacts.

Section PageExtras.
Import Js Json Net Core Lifetime Shape Ui.

(** X19: an upload whose announcement fails leaves the page behind the
    catalog.  When the file is read, its id is new and [publish] throws, the
    status line shows the error, the record is in the shared-files table, and
    the list on the page is not repainted: it is the list shown before.  The
    item of the file appears with the next repaint, here the removal of
    another id. *)
Theorem failed_announcement_leaves_page_stale
    (app : App) (file : File) (env : ShareEnv) (result : string) (err : exn) :
  let fileData :=
    {| sf_id := random_id env; sf_name := file_name file; sf_type := file_type file;
       sf_size := file_size file; sf_data := result; sf_timestamp := now_stored env |} in
  let app' := onFileInputChange app (Some file) env in
  reader env = Returned result ->
  map_get (VStr (random_id env)) (sharedFiles (fileSharing app)) = None ->
  publish (pubsub env) FILE_ANNOUNCE_TOPIC
    (announcement_payload
       (announcement_value (self_peerId (fileSharing app)) fileData (now_announced env)))
    = Some err ->
  uploadStatus (page app') = "Error: " ++ message err /\
  getSharedFiles (fileSharing app')
  = (getSharedFiles (fileSharing app) ++ [fileData])%list /\
  sharedFilesList (page app') = sharedFilesList (page app) /\
  (forall otherId, otherId <> random_id env ->
     In (sharedFileItem fileData)
        (sharedFilesList (page (window_removeSharedFile app' otherId)))).
Proof.
  intros fileData app' Hreader Hfresh Hpub.
  assert (Hshare : shareFile (fileSharing app) file env
                   = ({| self_peerId := self_peerId (fileSharing app);
                         sharedFiles := map_set (VStr (random_id env)) fileData
                                          (sharedFiles (fileSharing app));
                         availableFiles := availableFiles (fileSharing app) |},
                      Thrown err)).
  { pose proof (shareFile_state (fileSharing app) file env) as Hst.
    rewrite Hreader in Hst. fold fileData in Hst.
    unfold shareFile in *. rewrite Hreader in *. fold fileData in Hst |- *.
    match goal with
    | |- (match announceFile ?s ?f ?n ?p with _ => _ end) = _ =>
        pose proof (announceFile_outcome s f n p) as Hout;
        destruct (announceFile s f n p) as [st2 [u|e]]
    end; simpl in Hout, Hst; rewrite Hpub in Hout; [discriminate|].
    injection Hout as <-. now subst st2. }
  assert (Happ : app' = setUploadStatus
                          {| fileSharing := fst (shareFile (fileSharing app) file env);
                             page := page (setUploadStatus app "Processing file...") |}
                          ("Error: " ++ message err)).
  { unfold app', onFileInputChange. cbn [fileSharing setUploadStatus]. now rewrite Hshare. }
  rewrite Happ, Hshare. cbn [fst setUploadStatus fileSharing page uploadStatus sharedFilesList].
  split; [reflexivity|]. split; [|split; [reflexivity|]].
  - unfold getSharedFiles. cbn [sharedFiles]. rewrite map_set_absent by assumption.
    unfold map_values. now rewrite List.map_app.
  - intros otherId Hother.
    unfold window_removeSharedFile, updateSharedFilesList.
    cbn [fileSharing page sharedFilesList]. apply in_map.
    unfold getSharedFiles. eapply map_get_In.
    unfold removeSharedFile. cbn [sharedFiles].
    rewrite map_get_delete_other.
    + apply map_get_set_same, same_value_zero_str.
    + simpl. now apply String.eqb_neq.
Qed.

Lemma failed_announcement_leaves_page_stale_witness :
  uploadStatus
    (page (onFileInputChange
             {| fileSharing := new Scenario.me;
                page := {| uploadStatus := ""; sharedFilesList := [] |} |}
             (Some Scenario.a_txt)
             (Scenario.share_env "k3x9q0z1a" 1700000000000 Scenario.failing)))
  = "Error: PublishError.NoPeersSubscribedToTopic" /\
  sharedFilesList
    (page (onFileInputChange
             {| fileSharing := new Scenario.me;
                page := {| uploadStatus := ""; sharedFilesList := [] |} |}
             (Some Scenario.a_txt)
             (Scenario.share_env "k3x9q0z1a" 1700000000000 Scenario.failing)))
  = [] /\
  getSharedFiles
    (fileSharing (onFileInputChange
             {| fileSharing := new Scenario.me;
                page := {| uploadStatus := ""; sharedFilesList := [] |} |}
             (Some Scenario.a_txt)
             (Scenario.share_env "k3x9q0z1a" 1700000000000 Scenario.failing)))
  = [Scenario.a_record].
Proof.
  pose proof (failed_announcement_leaves_page_stale
                {| fileSharing := new Scenario.me;
                   page := {| uploadStatus := ""; sharedFilesList := [] |} |}
                Scenario.a_txt
                (Scenario.share_env "k3x9q0z1a" 1700000000000 Scenario.failing)
                "data:text/plain;base64,aGVsbG8="
                (Error "PublishError.NoPeersSubscribedToTopic")) as H.
  cbv zeta in H. destruct H as [Hstatus [Hfiles [Hlist _]]]; try reflexivity.
  split; [exact Hstatus|]. split; [exact Hlist | exact Hfiles].
Defined.

(** X20: downloading, with the second definition on both sides, a file that
    the responder does not share, with a peer id that [peerIdFromString]
    accepts and a request of at most 4 MiB: [downloadFile] clicks no anchor
    and the status line reads the responder's not-found error. *)
Theorem download_of_absent_file_shows_error
    (app : App) (responder : FileSharing) (libp2p : Libp2p)
    (peerId peerIdObj fileId : string) :
  let inbound := Scenario.stream_carrying (Lp.encode [chunk_of (request_value (VStr fileId))]) in
  let reply := delivered (snd (run (V2.protocolHandler responder inbound))) in
  map_has (VStr fileId) (sharedFiles responder) = false ->
  fits (chunk_of (request_value (VStr fileId))) = true ->
  peerIdFromString libp2p peerId = Returned peerIdObj ->
  dialProtocol libp2p peerIdObj FILE_SHARING_PROTOCOL
    = Returned (Some (Scenario.stream_carrying reply)) ->
  window_downloadFile V2.requestFile app libp2p peerId fileId
  = (setUploadStatus app
       "Error downloading: Failed to request file: Peer response error: File not found or invalid request",
     None).
Proof.
  intros inbound reply Habsent Hfits Hpeer Hdial. unfold window_downloadFile.
  rewrite (V2_absent_file_is_reported responder libp2p peerId peerIdObj fileId
             Habsent Hfits Hpeer Hdial).
  reflexivity.
Qed.

Lemma download_of_absent_file_shows_error_witness :
  uploadStatus
    (page (fst (window_downloadFile V2.requestFile
                  {| fileSharing := new Scenario.other;
                     page := {| uploadStatus := ""; sharedFilesList := [] |} |}
                  (Scenario.node
                     (Scenario.stream_carrying
                        (delivered
                           (snd (run (V2.protocolHandler Scenario.sharing_a
                                        (Scenario.stream_carrying
                                           (Lp.encode [chunk_of (request_value (VStr "zzzzzzzzz"))]))))))))
                  Scenario.me "zzzzzzzzz")))
  = "Error downloading: Failed to request file: Peer response error: File not found or invalid request".
Proof.
  rewrite (download_of_absent_file_shows_error
             {| fileSharing := new Scenario.other;
                page := {| uploadStatus := ""; sharedFilesList := [] |} |}
             Scenario.sharing_a
             (Scenario.node
                (Scenario.stream_carrying
                   (delivered
                      (snd (run (V2.protocolHandler Scenario.sharing_a
                                   (Scenario.stream_carrying
                                      (Lp.encode [chunk_of (request_value (VStr "zzzzzzzzz"))]))))))))
             Scenario.me Scenario.me "zzzzzzzzz"); reflexivity.
Defined.

(** X21: downloading, with the second definition on both sides, a file that a
    running responder lists and whose record is at most 4 MiB long on the
    wire, with a peer id that [peerIdFromString] accepts: [downloadFile]
    clicks an anchor whose [href] is the stored data URL and whose [download]
    is the stored name, and the status line reports success. *)
Theorem download_of_listed_file_saves_it
    (self : string) (app : App) (responder : FileSharing) (libp2p : Libp2p)
    (peerId peerIdObj : string) (f : SharedFile) :
  let inbound :=
    Scenario.stream_carrying (Lp.encode [chunk_of (request_value (VStr (sf_id f)))]) in
  let reply := delivered (snd (run (V2.protocolHandler responder inbound))) in
  reachable self responder ->
  In f (getSharedFiles responder) ->
  fits (chunk_of (fileData_value f)) = true ->
  peerIdFromString libp2p peerId = Returned peerIdObj ->
  dialProtocol libp2p peerIdObj FILE_SHARING_PROTOCOL
    = Returned (Some (Scenario.stream_carrying reply)) ->
  window_downloadFile V2.requestFile app libp2p peerId (sf_id f)
  = (setUploadStatus app "File downloaded successfully!",
     Some {| href := VStr (sf_data f); download := VStr (sf_name f) |}).
Proof.
  intros inbound reply Hreach Hin Hfits Hpeer Hdial. unfold window_downloadFile.
  rewrite (V2_shared_file_is_transferred responder libp2p peerId peerIdObj (sf_id f) f
             (listed_file_is_stored self responder f Hreach Hin)
             (request_fits f Hfits) Hfits Hpeer Hdial).
  reflexivity.
Qed.

Lemma download_of_listed_file_saves_it_witness :
  snd (window_downloadFile V2.requestFile
         {| fileSharing := new Scenario.other;
            page := {| uploadStatus := ""; sharedFilesList := [] |} |}
         (Scenario.node
            (Scenario.stream_carrying
               (delivered
                  (snd (run (V2.protocolHandler Scenario.sharing_a
                               (Scenario.stream_carrying
                                  (Lp.encode [chunk_of (request_value (VStr "k3x9q0z1a"))]))))))))
         Scenario.me "k3x9q0z1a")
  = Some {| href := VStr "data:text/plain;base64,aGVsbG8="; download := VStr "a.txt" |}.
Proof.
  refine (f_equal snd
            (download_of_listed_file_saves_it Scenario.me
               {| fileSharing := new Scenario.other;
                  page := {| uploadStatus := ""; sharedFilesList := [] |} |}
               Scenario.sharing_a
               (Scenario.node
                  (Scenario.stream_carrying
                     (delivered
                        (snd (run (V2.protocolHandler Scenario.sharing_a
                                     (Scenario.stream_carrying
                                        (Lp.encode
                                           [chunk_of (request_value (VStr "k3x9q0z1a"))]))))))))
               Scenario.me Scenario.me Scenario.a_record _ _ _ _ _)).
  - apply (reachable_step Scenario.me (new Scenario.me)
             (OpShareFile Scenario.a_txt
                (Scenario.share_env "k3x9q0z1a" 1700000000000 Scenario.accepting))).
    apply reachable_new.
  - left. reflexivity.
  - reflexivity.
  - reflexivity.
  - reflexivity.
Defined.

(** X22: how the page treats an error response, by definition of the class.
    On a stream that takes the request and delivers the response
    [{error: msg}]: with the first [requestFile] the response comes back as
    the file, [downloadFile] reports success and clicks an anchor whose
    [href] and [download] are [undefined]; with the second one, for a peer id
    that [peerIdFromString] accepts and a non-empty [msg], no anchor is
    clicked and the status line shows the message. *)
Theorem download_of_error_response
    (app : App) (libp2p : Libp2p) (peerId peerIdObj fileId msg : string) (stream : Stream) :
  sink stream 0 = None ->
  receive_json stream = Returned (error_value msg) ->
  (dialProtocol libp2p peerId FILE_SHARING_PROTOCOL = Returned (Some stream) ->
   window_downloadFile V1.requestFile app libp2p peerId fileId
   = (setUploadStatus app "File downloaded successfully!",
      Some {| href := VUndefined; download := VUndefined |})) /\
  (msg <> "" ->
   peerIdFromString libp2p peerId = Returned peerIdObj ->
   dialProtocol libp2p peerIdObj FILE_SHARING_PROTOCOL = Returned (Some stream) ->
   window_downloadFile V2.requestFile app libp2p peerId fileId
   = (setUploadStatus app
        ("Error downloading: Failed to request file: Peer response error: " ++ msg),
      None)).
Proof.
  intros Hsink Hrecv. split.
  - intros Hdial. unfold window_downloadFile.
    rewrite (V1_requestFile_settles libp2p peerId (VStr fileId) stream (error_value msg)
               Hdial Hsink Hrecv).
    reflexivity.
  - intros Hmsg Hpeer Hdial. unfold window_downloadFile.
    rewrite (V2_requestFile_settles libp2p peerId peerIdObj (VStr fileId) stream
               (error_value msg) (VStr msg) Hpeer Hdial Hsink Hrecv eq_refl).
    cbn [truthy to_string]. apply String.eqb_neq in Hmsg. rewrite Hmsg. reflexivity.
Qed.

Lemma download_of_error_response_witness :
  window_downloadFile V2.requestFile
    {| fileSharing := new Scenario.other;
       page := {| uploadStatus := ""; sharedFilesList := [] |} |}
    (Scenario.node (Scenario.inbound (error_value "File not found or invalid request")))
    Scenario.me "zzzzzzzzz"
  = (setUploadStatus
       {| fileSharing := new Scenario.other;
          page := {| uploadStatus := ""; sharedFilesList := [] |} |}
       ("Error downloading: Failed to request file: Peer response error: "
        ++ "File not found or invalid request"),
     None).
Proof.
  apply (download_of_error_response
           {| fileSharing := new Scenario.other;
              page := {| uploadStatus := ""; sharedFilesList := [] |} |}
           (Scenario.node (Scenario.inbound (error_value "File not found or invalid request")))
           Scenario.me Scenario.me "zzzzzzzzz" "File not found or invalid request"
           (Scenario.inbound (error_value "File not found or invalid request"))).
  - reflexivity.
  - reflexivity.
  - discriminate.
  - reflexivity.
  - reflexivity.
Defined.

End PageExtras.
